(** * LeXIDesk extractive summarizer: [backend/src/summarizer.py]

    A shallow embedding of [SentenceSummarizer] and the properties its
    specification states about it.

    Modelling conventions.
    - Python floats and NumPy float arrays are read as real numbers ([R]) and
      lists of reals: arithmetic is exact, there is no rounding, overflow,
      underflow or NaN.  Every statement below is a statement about this
      idealised arithmetic.
      Where a property turns on binary64 behaviour itself, the code is
      modelled a second time on Rocq's primitive floats, in module [F64].
    - Python integers are [Z]; list lengths and indices are [nat].
    - The optional third-party libraries (networkx, scikit-learn,
      sentence-transformers, nltk, and NumPy's [argsort]) are not code of
      this module.  They are collected in the record [Backends]; a call that
      can raise returns an [option], [None] standing for a raised exception,
      which the module always catches.
    - [warnings.warn] in the constructor is modelled by returning the list
      of warnings issued; the warnings of the signal computations, which
      change no result, are left out.
    - A Python [dict] keeps insertion order; the component map is an
      association list in insertion order. *)

From Stdlib Require Import String List ZArith Arith Lia Bool.
From Stdlib Require Import Reals Lra Zfloor.
From Stdlib Require Import Permutation Sorted.
From Stdlib Require Import Floats.
From Stdlib Require Uint63.
Import ListNotations.

Local Open Scope R_scope.

(** ** NumPy vectors as lists of reals *)

Module Np.

(** [a.sum()] *)
Fixpoint sum (v : list R) : R :=
  match v with
  | [] => 0
  | x :: v' => x + sum v'
  end.

(** [np.ones(n)] *)
Definition ones (n : nat) : list R := repeat 1 n.

(** [np.zeros(n)] *)
Definition zeros (n : nat) : list R := repeat 0 n.

(** [a / c] for an array [a] and a scalar [c] *)
Definition div_scalar (v : list R) (c : R) : list R :=
  map (fun x => x / c) v.

(** [c * a] for a scalar [c] and an array [a] *)
Definition scale (c : R) (v : list R) : list R :=
  map (fun x => c * x) v.

(** [a + b], elementwise, for arrays of one length *)
Fixpoint add (a b : list R) : list R :=
  match a, b with
  | x :: a', y :: b' => (x + y) :: add a' b'
  | _, _ => []
  end.

(** [np.arange(n)], as reals *)
Definition arange (n : nat) : list R := map INR (seq 0 n).

(** [np.ones(n) / n], the uniform distribution the module falls back to *)
Definition uniform (n : nat) : list R := div_scalar (ones n) (INR n).

(** The idiom that closes every signal computation:
    [x / x.sum() if x.sum() > 0 else np.ones(n) / n]. *)
Definition normalize (n : nat) (scores : list R) : list R :=
  if Rlt_dec 0 (sum scores) then div_scalar scores (sum scores)
  else uniform n.

End Np.

(** ** Python built-ins *)

(** [int(x)] on a float: truncation toward zero. *)
Definition py_int (x : R) : Z :=
  if Rle_dec 0 x then Zfloor x else Zceil x.

(** The slice [l[:n]] for a Python integer [n]: a negative bound counts
    from the end of the list. *)
Definition py_take {A : Type} (n : Z) (l : list A) : list A :=
  if (0 <=? n)%Z then firstn (Z.to_nat n) l
  else firstn (length l - Z.to_nat (- n)) l.

(** Insertion into a list of indices sorted by descending key, placing the
    new index before every index whose key is not strictly larger. *)
Fixpoint insert_desc (key : nat -> R) (i : nat) (l : list nat) : list nat :=
  match l with
  | [] => [i]
  | j :: l' =>
      if Rlt_dec (key i) (key j) then j :: insert_desc key i l'
      else i :: j :: l'
  end.

(** [l.sort(key=key, reverse=True)]: Python's sort is stable, and with
    [reverse=True] elements of equal key keep their original order. *)
Definition sort_by_key_reverse (key : nat -> R) (l : list nat) : list nat :=
  fold_right (insert_desc key) [] l.

Fixpoint insert_nat (i : nat) (l : list nat) : list nat :=
  match l with
  | [] => [i]
  | j :: l' => if (i <=? j)%nat then i :: j :: l' else j :: insert_nat i l'
  end.

(** [sorted(l)] on a list of integers. *)
Definition sorted (l : list nat) : list nat := fold_right insert_nat [] l.

(** Insertion into a list of indices sorted by ascending key, after every
    index whose key is strictly smaller. *)
Fixpoint insert_asc (key : nat -> R) (i : nat) (l : list nat) : list nat :=
  match l with
  | [] => [i]
  | j :: l' =>
      if Rlt_dec (key j) (key i) then j :: insert_asc key i l'
      else i :: j :: l'
  end.

(** A reference [np.argsort]: ascending, equal keys in index order (what
    an insertion sort, NumPy's choice for short arrays, returns). *)
Definition stable_argsort (w : list R) : list nat :=
  fold_right (insert_asc (fun i => nth i w 0)) [] (seq 0 (length w)).

(** [d.get(i, 0.0)] on the node-to-score dictionary PageRank returns. *)
Fixpoint dict_get (d : list (nat * R)) (i : nat) (default : R) : R :=
  match d with
  | [] => default
  | (k, v) :: d' => if (k =? i)%nat then v else dict_get d' i default
  end.

(** ** The optional libraries *)

Record Backends : Type := {
  HAS_NETWORKX : bool;
  HAS_SKLEARN : bool;
  HAS_SENTENCE_TRANSFORMERS : bool;
  HAS_NLTK : bool;
  (** [word_tokenize] on the lowercased sentence, followed by the stopword
      and [isalnum] filter; [None] when nltk raises. *)
  nltk_tokens : string -> option (list string);
  (** [re.findall(r'\b\w+\b', sentence.lower())] *)
  regex_words : string -> list string;
  (** [nx.pagerank(G, max_iter=100)] on the graph with the given number of
      nodes and weighted edges; [None] when it raises. *)
  nx_pagerank : nat -> list (nat * nat * R) -> option (list (nat * R));
  (** [TfidfVectorizer(...).fit_transform], the centroid and
      [cosine_similarity(...).flatten()]; [None] when any of them raises. *)
  tfidf_cosine : list string -> option (list R);
  (** [SentenceTransformer(name)]: whether the model loads. *)
  load_model : string -> bool;
  (** [model.encode], the centroid and [cosine_similarity(...).flatten()]
      for the named model; [None] when any of them raises. *)
  embedding_cosine : string -> list string -> option (list R);
  (** [np.argsort(weights)] *)
  np_argsort : list R -> list nat
}.

(** What the module relies on from the libraries: one score per sentence,
    none negative, and an [argsort] that returns each index once. *)
Record backends_ok (env : Backends) : Prop := {
  pagerank_nonneg : forall n g pr,
    nx_pagerank env n g = Some pr -> forall i, 0 <= dict_get pr i 0;
  tfidf_length : forall s v,
    tfidf_cosine env s = Some v -> length v = length s;
  tfidf_nonneg : forall s v,
    tfidf_cosine env s = Some v -> Forall (fun x => 0 <= x) v;
  embedding_length : forall m s v,
    embedding_cosine env m s = Some v -> length v = length s;
  embedding_nonneg : forall m s v,
    embedding_cosine env m s = Some v -> Forall (fun x => 0 <= x) v
}.

Definition argsort_ok (env : Backends) : Prop :=
  forall w, Permutation (np_argsort env w) (seq 0 (length w)).

(** An installation with none of the optional libraries. *)
Definition bare_env : Backends := {|
  HAS_NETWORKX := false;
  HAS_SKLEARN := false;
  HAS_SENTENCE_TRANSFORMERS := false;
  HAS_NLTK := false;
  nltk_tokens := fun _ => None;
  regex_words := fun _ => [];
  nx_pagerank := fun _ _ => None;
  tfidf_cosine := fun _ => None;
  load_model := fun _ => false;
  embedding_cosine := fun _ _ => None;
  np_argsort := stable_argsort
|}.

(** ** The class [SentenceSummarizer] *)

Inductive exn : Type :=
  | ZeroDivisionError.

Inductive result (A : Type) : Type :=
  | Ok (a : A)
  | Raise (e : exn).

Arguments Ok {A} a.
Arguments Raise {A} e.

Inductive warning : Type :=
  | WeightsSumWarning (total : R)
  | ModelLoadWarning.

Record SentenceSummarizer : Type := {
  cnn_prob_weight : R;
  textrank_weight : R;
  tfidf_weight : R;
  position_weight : R;
  use_embeddings : bool;
  (** [None], or the model that was loaded, known by its name *)
  embedding_model : option string
}.

Section Summarizer.

Variable env : Backends.

(** The embedding set-up at the end of [__init__], for coefficients
    already settled. *)
Definition init_embeddings (c t f p : R) (use_emb : bool) (name : string)
    (ws : list warning) : SentenceSummarizer * list warning :=
  if use_emb && HAS_SENTENCE_TRANSFORMERS env then
    if load_model env name then
      ({| cnn_prob_weight := c; textrank_weight := t; tfidf_weight := f;
          position_weight := p; use_embeddings := true;
          embedding_model := Some name |}, ws)
    else
      ({| cnn_prob_weight := c; textrank_weight := t; tfidf_weight := f;
          position_weight := p; use_embeddings := false;
          embedding_model := None |}, ws ++ [ModelLoadWarning])
  else
    ({| cnn_prob_weight := c; textrank_weight := t; tfidf_weight := f;
        position_weight := p; use_embeddings := false;
        embedding_model := None |}, ws).

(** [SentenceSummarizer.__init__].  The coefficients are Python floats, so
    the in-place division [/= total] raises [ZeroDivisionError] when
    [total] is zero. *)
Definition __init__ (cnn_prob_weight textrank_weight tfidf_weight
    position_weight : R) (use_embeddings : bool)
    (embedding_model_name : string)
    : result (SentenceSummarizer * list warning) :=
  let total :=
    cnn_prob_weight + textrank_weight + tfidf_weight + position_weight in
  if Rlt_dec 1e-6 (Rabs (total - 1)) then
    if Req_dec_T total 0 then Raise ZeroDivisionError
    else
      Ok (init_embeddings (cnn_prob_weight / total) (textrank_weight / total)
            (tfidf_weight / total) (position_weight / total)
            use_embeddings embedding_model_name [WeightsSumWarning total])
  else
    Ok (init_embeddings cnn_prob_weight textrank_weight tfidf_weight
          position_weight use_embeddings embedding_model_name []).

(** [_tokenize_sentence] *)
Definition _tokenize_sentence (sentence : string) : list string :=
  if HAS_NLTK env then
    match nltk_tokens env sentence with
    | Some tokens => tokens
    | None => regex_words env sentence
    end
  else regex_words env sentence.

Definition mem_string (t : string) (l : list string) : bool :=
  if in_dec string_dec t l then true else false.

(** The edges added by the double loop of [_compute_textrank_scores]:
    Jaccard similarity of the token sets, kept when above 0.1. *)
Definition similarity_edges (sentence_tokens : list (list string))
    : list (nat * nat * R) :=
  let n := length sentence_tokens in
  flat_map (fun i =>
    flat_map (fun j =>
      let tokens_i := nodup string_dec (nth i sentence_tokens []) in
      let tokens_j := nodup string_dec (nth j sentence_tokens []) in
      if ((length tokens_i =? 0) || (length tokens_j =? 0))%nat then []
      else
        let intersection :=
          length (filter (fun t => mem_string t tokens_j) tokens_i) in
        let union := length (nodup string_dec (tokens_i ++ tokens_j)) in
        let similarity :=
          if (0 <? union)%nat then INR intersection / INR union else 0 in
        if Rlt_dec 0.1 similarity then [(i, j, similarity)] else [])
      (seq (i + 1) (n - (i + 1))))
    (seq 0 n).

(** [_compute_textrank_scores] *)
Definition _compute_textrank_scores (sentences : list string) : list R :=
  let n := length sentences in
  if negb (HAS_NETWORKX env) then Np.uniform n
  else if (n <? 2)%nat then
    (if (0 <? n)%nat then Np.uniform n else [])
  else
    let sentence_tokens := map _tokenize_sentence sentences in
    let scores :=
      match nx_pagerank env n (similarity_edges sentence_tokens) with
      | Some pagerank_scores =>
          map (fun i => dict_get pagerank_scores i 0) (seq 0 n)
      | None => Np.uniform n
      end in
    Np.normalize n scores.

(** [_compute_tfidf_scores] *)
Definition _compute_tfidf_scores (sentences : list string) : list R :=
  let n := length sentences in
  if negb (HAS_SKLEARN env) then Np.uniform n
  else if (n =? 0)%nat then []
  else
    match tfidf_cosine env sentences with
    | Some similarities => Np.normalize n similarities
    | None => Np.uniform n
    end.

(** [_compute_embedding_scores] *)
Definition _compute_embedding_scores (self : SentenceSummarizer)
    (sentences : list string) : list R :=
  match use_embeddings self, embedding_model self with
  | true, Some model =>
      match embedding_cosine env model sentences with
      | Some similarities => Np.normalize (length sentences) similarities
      | None => _compute_tfidf_scores sentences
      end
  | _, _ => _compute_tfidf_scores sentences
  end.

(** The array [np.exp(-np.arange(n) * 0.1)] of [_compute_position_scores],
    with the real exponential.  The real exponential never underflows,
    binary64 [np.exp] does: strict decrease and strict positivity of these
    values hold here for every [n], in the code only while the
    exponentials stay normal numbers.  [F64._compute_position_scores]
    models the binary64 computation. *)
Definition position_raw (n : nat) : list R :=
  map (fun i => exp (- i * 0.1)) (Np.arange n).

(** [_compute_position_scores] *)
Definition _compute_position_scores (sentences : list string) : list R :=
  if (length sentences =? 0)%nat then []
  else
    let n := length sentences in
    Np.normalize n (position_raw n).

(** The array [scores] of [_compute_cnn_prob_scores] before it is
    normalized, for a non-empty [cnn_probs]. *)
Definition cnn_raw (n : nat) (cnn_probs : list R) : list R :=
  if (length cnn_probs =? n)%nat then cnn_probs
  else if (n <? length cnn_probs)%nat then firstn n cnn_probs
  else cnn_probs ++ repeat 0.5 (n - length cnn_probs).

(** [_compute_cnn_prob_scores] *)
Definition _compute_cnn_prob_scores (sentences : list string)
    (original_text : string) (cnn_probs : option (list R)) : list R :=
  let n := length sentences in
  match cnn_probs with
  | None => if (0 <? n)%nat then Np.uniform n else []
  | Some [] => if (0 <? n)%nat then Np.uniform n else []
  | Some probs => Np.normalize n (cnn_raw n probs)
  end.

Definition component_map : Type := list (string * list R).

(** [compute_sentence_weights] *)
Definition compute_sentence_weights (self : SentenceSummarizer)
    (sentences : list string) (original_text : string)
    (cnn_probs : option (list R)) : list R * component_map :=
  let n := length sentences in
  if (n =? 0)%nat then ([], [])
  else
    let component_scores := [] in
    let '(cnn_scores, component_scores) :=
      if Rlt_dec 0 (cnn_prob_weight self) then
        let s := _compute_cnn_prob_scores sentences original_text cnn_probs in
        (s, component_scores ++ [("cnn_prob"%string, s)])
      else (Np.zeros n, component_scores) in
    let '(textrank_scores, component_scores) :=
      if Rlt_dec 0 (textrank_weight self) then
        let s := _compute_textrank_scores sentences in
        (s, component_scores ++ [("textrank"%string, s)])
      else (Np.zeros n, component_scores) in
    let '(similarity_scores, component_scores) :=
      if Rlt_dec 0 (tfidf_weight self) then
        if use_embeddings self then
          let s := _compute_embedding_scores self sentences in
          (s, component_scores ++ [("embeddings"%string, s)])
        else
          let s := _compute_tfidf_scores sentences in
          (s, component_scores ++ [("tfidf"%string, s)])
      else (Np.zeros n, component_scores) in
    let '(position_scores, component_scores) :=
      if Rlt_dec 0 (position_weight self) then
        let s := _compute_position_scores sentences in
        (s, component_scores ++ [("position"%string, s)])
      else (Np.zeros n, component_scores) in
    let combined_scores :=
      Np.add (Np.add (Np.add
        (Np.scale (cnn_prob_weight self) cnn_scores)
        (Np.scale (textrank_weight self) textrank_scores))
        (Np.scale (tfidf_weight self) similarity_scores))
        (Np.scale (position_weight self) position_scores) in
    (Np.normalize n combined_scores, component_scores).

(** The variable [n_select] of [summarize].  The products
    [len(sentences) * compression] and [len(sentences) * 0.3] are taken in
    exact arithmetic.  For the default ratio the integer part is that of
    the binary64 product; for an arbitrary [compression] the binary64
    product can round across an integer, and then the count of the code
    differs by one from the count here. *)
Definition n_select (n : nat) (compression : option R) (top_k : option Z)
    : Z :=
  match top_k with
  | Some k => Z.min k (Z.of_nat n)
  | None =>
      match compression with
      | Some c => Z.max 1 (py_int (INR n * c))
      | None => Z.max 2 (py_int (INR n * 0.3))
      end
  end.

(** The ranking of all sentence indices that [summarize] cuts to
    [n_select], in either mode. *)
Definition ranked_indices (n : nat) (weights : list R)
    (preserve_order : bool) : list nat :=
  if preserve_order then
    sort_by_key_reverse (fun i => nth i weights 0) (seq 0 n)
  else rev (np_argsort env weights).

(** The variable [selected_indices] of [summarize] *)
Definition selected_indices (n : nat) (weights : list R) (n_select : Z)
    (preserve_order : bool) : list nat :=
  sorted (py_take n_select (ranked_indices n weights preserve_order)).

(** [summarize] *)
Definition summarize (self : SentenceSummarizer) (sentences : list string)
    (original_text : string) (cnn_probs : option (list R))
    (compression : option R) (top_k : option Z) (preserve_order : bool)
    : list string * list R * component_map :=
  if (length sentences =? 0)%nat then ([], [], [])
  else
    let '(weights, component_scores) :=
      compute_sentence_weights self sentences original_text cnn_probs in
    let n_select := n_select (length sentences) compression top_k in
    let selected_indices :=
      selected_indices (length sentences) weights n_select preserve_order in
    let selected_sentences :=
      map (fun i => nth i sentences EmptyString) selected_indices in
    (selected_sentences, weights, component_scores).

End Summarizer.

(** ** The position signal in binary64

    [_compute_position_scores] once more, on primitive floats.  The
    elementwise product, the comparison and the division are the IEEE 754
    operations; [np.exp] and the array sum are NumPy's and are taken as
    parameters. *)

Module F64.

Record NumPy : Type := {
  np_exp : float -> float;
  np_sum : list float -> float
}.

(** An integer of [np.arange], converted to binary64. *)
Definition of_nat (n : nat) : float :=
  PrimFloat.of_uint63 (Uint63.of_Z (Z.of_nat n)).

(** The entry of [-np.arange(n) * 0.1] at index [i]; the literal is 0.1
    rounded to binary64. *)
Definition exponent (i : nat) : float :=
  (- of_nat i * 0x1.999999999999ap-4)%float.

(** [_compute_position_scores] *)
Definition _compute_position_scores (lib : NumPy) (sentences : list string)
    : list float :=
  if (length sentences =? 0)%nat then []
  else
    let n := length sentences in
    let position_scores :=
      map (fun i => np_exp lib (exponent i)) (seq 0 n) in
    if (0 <? np_sum lib position_scores)%float then
      map (fun x => (x / np_sum lib position_scores)%float) position_scores
    else map (fun x => (x / of_nat n)%float) (repeat 1%float n).


(** A reference exponential, the limit formula [(1 + x / 2^20) ^ (2^20)]
    by repeated squaring, flushed to 0 at and below -746; and a reference
    sum, left to right. *)
Definition reference_exp (x : float) : float :=
  if (x <=? -746)%float then 0%float
  else Nat.iter 20 (fun y => (y * y)%float) (1 + x / 1048576)%float.

Definition reference_sum (v : list float) : float :=
  fold_left PrimFloat.add v 0%float.

Definition reference_numpy : NumPy :=
  {| np_exp := reference_exp; np_sum := reference_sum |}.

(** A document of 7500 sentences. *)
Definition long_document : list string :=
  repeat "A sentence."%string (Z.to_nat 7500).

End F64.

(** ** Vocabulary of the properties *)

Definition nonneg (v : list R) : Prop := Forall (fun x => 0 <= x) v.

(** A weight vector over [n] sentences: one entry per sentence, none
    negative, total 1. *)
Definition distribution (n : nat) (v : list R) : Prop :=
  length v = n /\ nonneg v /\ Np.sum v = 1.

(** A weight vector over [n] sentences, as the specification tests it:
    one entry per sentence, none negative, total 1 within 1e-6. *)
Definition weight_vector (n : nat) (v : list R) : Prop :=
  length v = n /\ nonneg v /\ Rabs (Np.sum v - 1) <= 1e-6.

(** The entries of an optional probability sequence are non-negative. *)
Definition probs_nonneg (cnn_probs : option (list R)) : Prop :=
  match cnn_probs with
  | Some probs => nonneg probs
  | None => True
  end.

(** A term of the weighted sum: [n] entries, none negative. *)
Definition term_ok (n : nat) (v : list R) : Prop :=
  length v = n /\ nonneg v.

(** The sum of the four stored coefficients. *)
Definition coefficient_total (self : SentenceSummarizer) : R :=
  cnn_prob_weight self + textrank_weight self + tfidf_weight self +
  position_weight self.

(** The configuration [SentenceSummarizer()] builds from its defaults. *)
Definition default_summarizer : SentenceSummarizer := {|
  cnn_prob_weight := 0.25;
  textrank_weight := 0.35;
  tfidf_weight := 0.30;
  position_weight := 0.10;
  use_embeddings := false;
  embedding_model := None
|}.

(** A configuration that keeps only the boundary signal. *)
Definition boundary_only : SentenceSummarizer := {|
  cnn_prob_weight := 1;
  textrank_weight := 0;
  tfidf_weight := 0;
  position_weight := 0;
  use_embeddings := false;
  embedding_model := None
|}.

(** The three components of the result of [summarize]. *)
Definition summary_sentences (r : list string * list R * component_map)
    : list string := fst (fst r).
Definition summary_weights (r : list string * list R * component_map)
    : list R := snd (fst r).
Definition summary_components (r : list string * list R * component_map)
    : component_map := snd r.

(** Index [i] ranks before index [j]: a larger weight, or the same weight
    and a smaller index. *)
Definition ranks_before (key : nat -> R) (i j : nat) : Prop :=
  key j < key i \/ (key i = key j /\ (i < j)%nat).

(** What the selection relies on from [np.argsort] beyond [argsort_ok]:
    the weights ascend along the returned indices. *)
Definition argsort_sorted (env : Backends) : Prop :=
  forall w,
    StronglySorted (fun i j => nth i w 0 <= nth j w 0) (np_argsort env w).

(** The weights at the indices below [n] are pairwise different. *)
Definition distinct_weights (n : nat) (w : list R) : Prop :=
  forall i j, (i < n)%nat -> (j < n)%nat -> i <> j -> nth i w 0 <> nth j w 0.

(** The similarity signal in use: embeddings when enabled, TF-IDF
    otherwise. *)
Definition similarity_signal (env : Backends) (self : SentenceSummarizer)
    (sentences : list string) : list R :=
  if use_embeddings self then _compute_embedding_scores env self sentences
  else _compute_tfidf_scores env sentences.

(** The key under which the similarity signal is recorded. *)
Definition similarity_key (self : SentenceSummarizer) : string :=
  if use_embeddings self then "embeddings"%string else "tfidf"%string.

(** The vector a signal contributes to the weighted sum: the signal when
    its coefficient is positive, zeros otherwise. *)
Definition effective (n : nat) (c : R) (v : list R) : list R :=
  if Rlt_dec 0 c then v else Np.zeros n.

(** The entry a signal leaves in the component map. *)
Definition recorded (c : R) (key : string) (v : list R) : component_map :=
  if Rlt_dec 0 c then [(key, v)] else [].

(** The weighted sum of [compute_sentence_weights] before its
    normalization. *)
Definition combined_scores (env : Backends) (self : SentenceSummarizer)
    (sentences : list string) (text : string) (cnn_probs : option (list R))
    : list R :=
  let n := length sentences in
  Np.add (Np.add (Np.add
    (Np.scale (cnn_prob_weight self)
       (effective n (cnn_prob_weight self)
          (_compute_cnn_prob_scores sentences text cnn_probs)))
    (Np.scale (textrank_weight self)
       (effective n (textrank_weight self)
          (_compute_textrank_scores env sentences))))
    (Np.scale (tfidf_weight self)
       (effective n (tfidf_weight self)
          (similarity_signal env self sentences))))
    (Np.scale (position_weight self)
       (effective n (position_weight self)
          (_compute_position_scores sentences))).

(** What networkx and scikit-learn guarantee: PageRank scores and TF-IDF
    cosines are never negative, and the similarity backends return one
    value per sentence.  Nothing is asked of the sign of the embedding
    cosines, which range over [-1, 1]. *)
Record libraries_ok (env : Backends) : Prop := {
  lib_pagerank_nonneg : forall n g pr,
    nx_pagerank env n g = Some pr -> forall i, 0 <= dict_get pr i 0;
  lib_tfidf_length : forall s v,
    tfidf_cosine env s = Some v -> length v = length s;
  lib_tfidf_nonneg : forall s v,
    tfidf_cosine env s = Some v -> Forall (fun x => 0 <= x) v;
  lib_embedding_length : forall m s v,
    embedding_cosine env m s = Some v -> length v = length s
}.

(** The cosines the embedding path obtains for these sentences, when it
    runs, are not negative. *)
Definition embedding_cosines_nonneg (env : Backends)
    (self : SentenceSummarizer) (sentences : list string) : Prop :=
  forall m v,
    use_embeddings self = true -> embedding_model self = Some m ->
    embedding_cosine env m sentences = Some v ->
    Forall (fun x => 0 <= x) v.

(** An installation with scikit-learn and sentence-transformers in which
    the last sentence of a document lies opposite the centroid: its
    cosine is -1, the others are 1. *)
Definition opposed_env : Backends := {|
  HAS_NETWORKX := false;
  HAS_SKLEARN := true;
  HAS_SENTENCE_TRANSFORMERS := true;
  HAS_NLTK := false;
  nltk_tokens := fun _ => None;
  regex_words := fun _ => [];
  nx_pagerank := fun _ _ => None;
  tfidf_cosine := fun s => Some (repeat 1 (length s));
  load_model := fun _ => true;
  embedding_cosine := fun _ s =>
    Some (match s with
          | [] => []
          | _ :: s' => repeat 1 (length s') ++ [-1]
          end);
  np_argsort := stable_argsort
|}.

(** The default coefficients with embeddings in use. *)
Definition embedding_summarizer : SentenceSummarizer := {|
  cnn_prob_weight := 0.25;
  textrank_weight := 0.35;
  tfidf_weight := 0.30;
  position_weight := 0.10;
  use_embeddings := true;
  embedding_model := Some "all-MiniLM-L6-v2"%string
|}.

(** Linear goals and hypotheses under an absolute value. *)
Ltac abs_lra :=
  unfold Rabs in *;
  repeat match goal with
         | |- context [Rcase_abs ?x] => destruct (Rcase_abs x)
         | H : context [Rcase_abs ?x] |- _ => destruct (Rcase_abs x)
         end;
  lra.

(** * Properties *)

(** ** Vectors and normalization *)

Lemma sum_div_scalar (v : list R) (c : R) :
  Np.sum (Np.div_scalar v c) = Np.sum v / c.
Proof.
  induction v as [| x v IH]; simpl.
  - unfold Rdiv. ring.
  - rewrite IH. unfold Rdiv. ring.
Qed.

Lemma sum_scale (c : R) (v : list R) :
  Np.sum (Np.scale c v) = c * Np.sum v.
Proof.
  induction v as [| x v IH]; simpl; [ring | rewrite IH; ring].
Qed.

Lemma sum_repeat (x : R) (n : nat) : Np.sum (repeat x n) = INR n * x.
Proof.
  induction n as [| n IH].
  - simpl. ring.
  - rewrite S_INR. simpl. rewrite IH. ring.
Qed.

Lemma sum_app (u v : list R) : Np.sum (u ++ v) = Np.sum u + Np.sum v.
Proof.
  induction u as [| x u IH]; simpl; [ring | rewrite IH; ring].
Qed.

Lemma sum_nonneg (v : list R) : nonneg v -> 0 <= Np.sum v.
Proof.
  induction 1 as [| x v Hx _ IH]; simpl; lra.
Qed.

Lemma length_div_scalar (v : list R) (c : R) :
  length (Np.div_scalar v c) = length v.
Proof. apply length_map. Qed.

Lemma length_uniform (n : nat) : length (Np.uniform n) = n.
Proof.
  unfold Np.uniform, Np.ones. now rewrite length_div_scalar, repeat_length.
Qed.

Lemma uniform_repeat (n : nat) : Np.uniform n = repeat (1 / INR n) n.
Proof.
  unfold Np.uniform, Np.div_scalar, Np.ones.
  generalize (INR n). intros c.
  induction n as [| n IH]; simpl; [reflexivity | now rewrite IH].
Qed.

Lemma nonneg_repeat (x : R) (n : nat) : 0 <= x -> nonneg (repeat x n).
Proof.
  intros Hx. induction n; simpl; constructor; assumption.
Qed.

Lemma nonneg_div_scalar (v : list R) (c : R) :
  0 < c -> nonneg v -> nonneg (Np.div_scalar v c).
Proof.
  intros Hc Hv. induction Hv as [| x v Hx _ IH]; simpl; constructor.
  - apply Rmult_le_pos; [assumption |].
    left. now apply Rinv_0_lt_compat.
  - exact IH.
Qed.

Lemma uniform_distribution (n : nat) :
  (0 < n)%nat -> distribution n (Np.uniform n).
Proof.
  intros Hn. assert (0 < INR n) by (now apply lt_0_INR).
  split; [apply length_uniform | split].
  - unfold Np.uniform. apply nonneg_div_scalar; [assumption |].
    apply nonneg_repeat. lra.
  - unfold Np.uniform, Np.ones. rewrite sum_div_scalar, sum_repeat.
    field. lra.
Qed.

Lemma normalize_length (n : nat) (v : list R) :
  length v = n -> length (Np.normalize n v) = n.
Proof.
  intros Hl. unfold Np.normalize. destruct (Rlt_dec 0 (Np.sum v)).
  - now rewrite length_div_scalar.
  - apply length_uniform.
Qed.

Lemma normalize_sum (n : nat) (v : list R) :
  (0 < n)%nat -> Np.sum (Np.normalize n v) = 1.
Proof.
  intros Hn. unfold Np.normalize. destruct (Rlt_dec 0 (Np.sum v)) as [Hs | Hs].
  - rewrite sum_div_scalar. field. lra.
  - now apply uniform_distribution.
Qed.

Lemma normalize_distribution (n : nat) (v : list R) :
  (0 < n)%nat -> length v = n -> nonneg v ->
  distribution n (Np.normalize n v).
Proof.
  intros Hn Hl Hv. split; [now apply normalize_length | split].
  - unfold Np.normalize. destruct (Rlt_dec 0 (Np.sum v)) as [Hs | Hs].
    + now apply nonneg_div_scalar.
    + now apply uniform_distribution.
  - now apply normalize_sum.
Qed.

Lemma normalize_pos (n : nat) (v : list R) :
  0 < Np.sum v -> Np.normalize n v = Np.div_scalar v (Np.sum v).
Proof.
  intros Hs. unfold Np.normalize. now destruct (Rlt_dec 0 (Np.sum v)).
Qed.

Lemma normalize_nonpos (n : nat) (v : list R) :
  Np.sum v <= 0 -> Np.normalize n v = Np.uniform n.
Proof.
  intros Hs. unfold Np.normalize.
  destruct (Rlt_dec 0 (Np.sum v)); [lra | reflexivity].
Qed.

(** ** Construction *)

Section Construction.

Variable env : Backends.

Lemma init_embeddings_weights (c t f p : R) (b : bool) (name : string)
    (ws : list warning) :
  let self := fst (init_embeddings env c t f p b name ws) in
  cnn_prob_weight self = c /\ textrank_weight self = t /\
  tfidf_weight self = f /\ position_weight self = p.
Proof.
  unfold init_embeddings.
  destruct (b && HAS_SENTENCE_TRANSFORMERS env); [destruct (load_model env name) |];
    simpl; auto.
Qed.

Lemma init_embeddings_warnings (c t f p : R) (b : bool) (name : string)
    (ws : list warning) :
  incl ws (snd (init_embeddings env c t f p b name ws)).
Proof.
  unfold init_embeddings.
  destruct (b && HAS_SENTENCE_TRANSFORMERS env); [destruct (load_model env name) |];
    simpl; auto using incl_refl, incl_appl.
Qed.

(** Off the tolerance and with a non-zero total, construction divides the
    coefficients by their total, so that they sum to 1, and warns. *)
Lemma init_normalizes (c t f p : R) (b : bool) (name : string) :
  1e-6 < Rabs (c + t + f + p - 1) -> c + t + f + p <> 0 ->
  exists self ws,
    __init__ env c t f p b name = Ok (self, ws) /\
    cnn_prob_weight self = c / (c + t + f + p) /\
    textrank_weight self = t / (c + t + f + p) /\
    tfidf_weight self = f / (c + t + f + p) /\
    position_weight self = p / (c + t + f + p) /\
    coefficient_total self = 1 /\
    In (WeightsSumWarning (c + t + f + p)) ws.
Proof.
  intros Htol Hnz. unfold __init__.
  destruct (Rlt_dec 1e-6 (Rabs (c + t + f + p - 1))) as [_ | Hn];
    [| contradiction].
  destruct (Req_dec_T (c + t + f + p) 0) as [Hz | _]; [contradiction |].
  set (r := init_embeddings env _ _ _ _ b name _).
  exists (fst r), (snd r). split; [now destruct r |].
  destruct (init_embeddings_weights (c / (c + t + f + p)) (t / (c + t + f + p))
    (f / (c + t + f + p)) (p / (c + t + f + p)) b name
    [WeightsSumWarning (c + t + f + p)]) as (Hc & Ht & Hf & Hp).
  fold r in Hc, Ht, Hf, Hp.
  repeat split; try assumption.
  - unfold coefficient_total. rewrite Hc, Ht, Hf, Hp. now field.
  - apply (init_embeddings_warnings _ _ _ _ b name). now left.
Qed.

(** Within the tolerance the coefficients are stored as given. *)
Lemma init_keeps (c t f p : R) (b : bool) (name : string) :
  Rabs (c + t + f + p - 1) <= 1e-6 ->
  exists self ws,
    __init__ env c t f p b name = Ok (self, ws) /\
    cnn_prob_weight self = c /\ textrank_weight self = t /\
    tfidf_weight self = f /\ position_weight self = p.
Proof.
  intros Htol. unfold __init__.
  destruct (Rlt_dec 1e-6 (Rabs (c + t + f + p - 1))) as [Hn | _]; [lra |].
  set (r := init_embeddings env _ _ _ _ b name _).
  exists (fst r), (snd r). split; [now destruct r |].
  apply init_embeddings_weights.
Qed.

(** A zero total always takes the normalizing branch, whose division
    raises. *)
Lemma init_zero_total (c t f p : R) (b : bool) (name : string) :
  c + t + f + p = 0 ->
  __init__ env c t f p b name = Raise ZeroDivisionError.
Proof.
  intros Hz. unfold __init__. rewrite Hz.
  destruct (Rlt_dec 1e-6 (Rabs (0 - 1))) as [_ | Hn].
  - destruct (Req_dec_T 0 0) as [_ | Hne]; [reflexivity | contradiction].
  - exfalso. apply Hn. abs_lra.
Qed.

(** C7 (defect): with coefficients that total zero, here all four zero,
    the normalizing division raises [ZeroDivisionError] instead of
    recording a warning. *)
Theorem init_all_zero_raises (b : bool) (name : string) :
  __init__ env 0 0 0 0 b name = Raise ZeroDivisionError.
Proof.
  apply init_zero_total. ring.
Qed.

(** The scenario of the specification: four coefficients 0.1 are stored as
    0.25 each, and the warning is recorded. *)
Lemma init_tenths (b : bool) (name : string) :
  exists self ws,
    __init__ env 0.1 0.1 0.1 0.1 b name = Ok (self, ws) /\
    cnn_prob_weight self = 0.25 /\ textrank_weight self = 0.25 /\
    tfidf_weight self = 0.25 /\ position_weight self = 0.25 /\
    In (WeightsSumWarning (0.1 + 0.1 + 0.1 + 0.1)) ws.
Proof.
  destruct (init_normalizes 0.1 0.1 0.1 0.1 b name)
    as (self & ws & Hi & Hc & Ht & Hf & Hp & _ & Hw).
  - abs_lra.
  - lra.
  - exists self, ws. rewrite Hc, Ht, Hf, Hp.
    repeat split; try assumption; lra.
Qed.

(** C2 (amended): construction checks no range.  Whenever the four
    coefficients have a non-zero total, negative coefficients included, it
    returns normally, with the coefficients stored as given when the total
    is within 1e-6 of 1 and divided by the total otherwise. *)
Theorem init_no_range_check (c t f p : R) (b : bool) (name : string) :
  c + t + f + p <> 0 ->
  exists self ws,
    __init__ env c t f p b name = Ok (self, ws) /\
    ((Rabs (c + t + f + p - 1) <= 1e-6 /\
      cnn_prob_weight self = c /\ textrank_weight self = t /\
      tfidf_weight self = f /\ position_weight self = p) \/
     (1e-6 < Rabs (c + t + f + p - 1) /\
      cnn_prob_weight self = c / (c + t + f + p) /\
      textrank_weight self = t / (c + t + f + p) /\
      tfidf_weight self = f / (c + t + f + p) /\
      position_weight self = p / (c + t + f + p))).
Proof.
  intros Hnz.
  destruct (Rlt_dec 1e-6 (Rabs (c + t + f + p - 1))) as [Hlt | Hle].
  - destruct (init_normalizes c t f p b name Hlt Hnz)
      as (self & ws & Hi & Hc & Ht & Hf & Hp & _).
    exists self, ws. split; [exact Hi | right; auto].
  - apply Rnot_lt_le in Hle.
    destruct (init_keeps c t f p b name Hle) as (self & ws & Hi & Hw).
    exists self, ws. split; [exact Hi | left; auto].
Qed.

End Construction.

(** C2 (as stated, refuted): a negative coefficient is accepted silently;
    the constructor neither raises nor warns. *)
Lemma init_negative_weight_accepted :
  __init__ bare_env (-0.5) 0.5 0.5 0.5 false "all-MiniLM-L6-v2" =
  Ok ({| cnn_prob_weight := -0.5; textrank_weight := 0.5;
         tfidf_weight := 0.5; position_weight := 0.5;
         use_embeddings := false; embedding_model := None |}, []).
Proof.
  unfold __init__.
  destruct (Rlt_dec 1e-6 (Rabs (-0.5 + 0.5 + 0.5 + 0.5 - 1))) as [Hlt | _].
  - exfalso. abs_lra.
  - reflexivity.
Qed.

Lemma init_no_range_check_witness :
  exists self ws,
    __init__ bare_env (-1) 2 2 1 false "all-MiniLM-L6-v2" = Ok (self, ws) /\
    ((Rabs (-1 + 2 + 2 + 1 - 1) <= 1e-6 /\
      cnn_prob_weight self = -1 /\ textrank_weight self = 2 /\
      tfidf_weight self = 2 /\ position_weight self = 1) \/
     (1e-6 < Rabs (-1 + 2 + 2 + 1 - 1) /\
      cnn_prob_weight self = -1 / (-1 + 2 + 2 + 1) /\
      textrank_weight self = 2 / (-1 + 2 + 2 + 1) /\
      tfidf_weight self = 2 / (-1 + 2 + 2 + 1) /\
      position_weight self = 1 / (-1 + 2 + 2 + 1))).
Proof.
  apply (init_no_range_check bare_env (-1) 2 2 1 false "all-MiniLM-L6-v2").
  lra.
Defined.

(** ** The position signal *)

Lemma nth_map_in {A B : Type} (f : A -> B) (l : list A) (i : nat) (d : A)
    (e : B) :
  (i < length l)%nat -> nth i (map f l) e = f (nth i l d).
Proof.
  intros Hi. rewrite (nth_indep _ e (f d)) by (now rewrite length_map).
  apply map_nth.
Qed.

Lemma length_position_raw (n : nat) : length (position_raw n) = n.
Proof.
  unfold position_raw, Np.arange. now rewrite !length_map, length_seq.
Qed.

Lemma nth_position_raw (n i : nat) :
  (i < n)%nat -> nth i (position_raw n) 0 = exp (- 0.1 * INR i).
Proof.
  intros Hi. unfold position_raw, Np.arange. rewrite map_map.
  rewrite (nth_map_in _ _ _ 0%nat) by (now rewrite length_seq).
  rewrite seq_nth by assumption. simpl. f_equal. lra.
Qed.

Lemma sum_pos (v : list R) :
  v <> [] -> Forall (fun x => 0 < x) v -> 0 < Np.sum v.
Proof.
  intros Hne Hv. destruct Hv as [| x v Hx Hv]; [contradiction |].
  simpl. assert (0 <= Np.sum v); [| lra].
  apply sum_nonneg. unfold nonneg.
  eapply Forall_impl; [| exact Hv]. intros; simpl in *; lra.
Qed.

Lemma position_raw_pos (n : nat) : Forall (fun x => 0 < x) (position_raw n).
Proof.
  unfold position_raw. apply Forall_map, Forall_forall.
  intros; apply exp_pos.
Qed.

Lemma sum_position_raw_pos (n : nat) :
  (0 < n)%nat -> 0 < Np.sum (position_raw n).
Proof.
  intros Hn. apply sum_pos; [| apply position_raw_pos].
  intros He. apply (f_equal (@length R)) in He.
  rewrite length_position_raw in He. simpl in He. lia.
Qed.

Lemma position_scores_eq (sentences : list string) :
  (0 < length sentences)%nat ->
  _compute_position_scores sentences =
  Np.div_scalar (position_raw (length sentences))
    (Np.sum (position_raw (length sentences))).
Proof.
  intros Hn. unfold _compute_position_scores.
  destruct (Nat.eqb_spec (length sentences) 0) as [H0 | _]; [lia |].
  apply normalize_pos. now apply sum_position_raw_pos.
Qed.

Lemma position_distribution (sentences : list string) :
  (0 < length sentences)%nat ->
  distribution (length sentences) (_compute_position_scores sentences).
Proof.
  intros Hn. unfold _compute_position_scores.
  destruct (Nat.eqb_spec (length sentences) 0) as [H0 | _]; [lia |].
  apply normalize_distribution;
    [assumption | apply length_position_raw |].
  unfold nonneg. eapply Forall_impl; [| apply position_raw_pos].
  intros; simpl in *; lra.
Qed.

(** In exact arithmetic: over a non-empty list of [n] sentences the
    position signal has [n] entries, entry [i] being [exp (-0.1 * i)]
    divided by one positive total, the entries sum to 1, and the signal
    strictly decreases with the index. *)
Lemma position_scores_decay (sentences : list string) :
  (0 < length sentences)%nat ->
  let n := length sentences in
  let scores := _compute_position_scores sentences in
  length scores = n /\
  Np.sum scores = 1 /\
  (exists total, 0 < total /\
     forall i, (i < n)%nat -> nth i scores 0 = exp (- 0.1 * INR i) / total) /\
  (forall i j, (i < j < n)%nat -> nth j scores 0 < nth i scores 0).
Proof.
  intros Hn n scores.
  destruct (position_distribution sentences Hn) as (Hlen & _ & Hsum).
  assert (Hnth : forall i, (i < n)%nat ->
            nth i scores 0 =
            exp (- 0.1 * INR i) / Np.sum (position_raw n)).
  { intros i Hi. unfold scores. rewrite position_scores_eq by assumption.
    unfold Np.div_scalar.
    rewrite (nth_map_in _ _ _ 0) by (now rewrite length_position_raw).
    now rewrite nth_position_raw. }
  pose proof (sum_position_raw_pos n Hn) as Hpos.
  repeat split; try assumption.
  - exists (Np.sum (position_raw n)). now split.
  - intros i j [Hij Hj]. rewrite !Hnth by lia.
    apply Rmult_lt_compat_r; [now apply Rinv_0_lt_compat |].
    apply exp_increasing. apply lt_INR in Hij. lra.
Qed.

(** ** The external boundary signal *)

Lemma cnn_prob_scores_nonempty (sentences : list string) (text : string)
    (probs : list R) :
  probs <> [] ->
  _compute_cnn_prob_scores sentences text (Some probs) =
  Np.normalize (length sentences) (cnn_raw (length sentences) probs).
Proof.
  intros Hne. destruct probs; [contradiction | reflexivity].
Qed.

Lemma cnn_prob_scores_absent (sentences : list string) (text : string) :
  _compute_cnn_prob_scores sentences text None =
  Np.uniform (length sentences) /\
  _compute_cnn_prob_scores sentences text (Some []) =
  Np.uniform (length sentences).
Proof.
  unfold _compute_cnn_prob_scores.
  destruct (length sentences); simpl; auto.
Qed.

Lemma length_cnn_raw (n : nat) (probs : list R) :
  length (cnn_raw n probs) = n.
Proof.
  unfold cnn_raw.
  destruct (Nat.eqb_spec (length probs) n) as [He | Hne]; [assumption |].
  destruct (Nat.ltb_spec n (length probs)) as [Hlt | Hge].
  - rewrite length_firstn. lia.
  - rewrite length_app, repeat_length. lia.
Qed.

Lemma length_cnn_prob_scores (sentences : list string) (text : string)
    (probs : option (list R)) :
  length (_compute_cnn_prob_scores sentences text probs) = length sentences.
Proof.
  destruct probs as [probs |].
  - destruct probs as [| p probs].
    + rewrite (proj2 (cnn_prob_scores_absent sentences text)).
      apply length_uniform.
    + rewrite cnn_prob_scores_nonempty by discriminate.
      apply normalize_length, length_cnn_raw.
  - rewrite (proj1 (cnn_prob_scores_absent sentences text)).
    apply length_uniform.
Qed.

Lemma sum_cnn_prob_scores (sentences : list string) (text : string)
    (probs : option (list R)) :
  (0 < length sentences)%nat ->
  Np.sum (_compute_cnn_prob_scores sentences text probs) = 1.
Proof.
  intros Hn. destruct probs as [probs |].
  - destruct probs as [| p probs].
    + rewrite (proj2 (cnn_prob_scores_absent sentences text)).
      now apply uniform_distribution.
    + rewrite cnn_prob_scores_nonempty by discriminate.
      now apply normalize_sum.
  - rewrite (proj1 (cnn_prob_scores_absent sentences text)).
    now apply uniform_distribution.
Qed.

Lemma cnn_raw_longer (n : nat) (probs : list R) :
  (n < length probs)%nat -> cnn_raw n probs = firstn n probs.
Proof.
  intros Hgt. unfold cnn_raw.
  destruct (Nat.eqb_spec (length probs) n) as [He | _]; [lia |].
  destruct (Nat.ltb_spec n (length probs)) as [_ | Hle]; [| lia].
  reflexivity.
Qed.

Lemma cnn_raw_exact (n : nat) (probs : list R) :
  length probs = n -> cnn_raw n probs = probs.
Proof.
  intros He. unfold cnn_raw.
  destruct (Nat.eqb_spec (length probs) n); [reflexivity | contradiction].
Qed.

Lemma cnn_prob_scores_truncate (sentences : list string) (text : string)
    (probs : list R) :
  (length sentences < length probs)%nat ->
  _compute_cnn_prob_scores sentences text (Some probs) =
  _compute_cnn_prob_scores sentences text
    (Some (firstn (length sentences) probs)).
Proof.
  intros Hgt.
  assert (Hp : probs <> []) by (intros ->; simpl in Hgt; lia).
  rewrite (cnn_prob_scores_nonempty _ _ probs) by assumption.
  rewrite cnn_raw_longer by assumption.
  destruct (length sentences) as [| n'] eqn:En.
  - simpl firstn. unfold _compute_cnn_prob_scores. rewrite En. simpl.
    apply normalize_nonpos. simpl. lra.
  - assert (Hf : firstn (S n') probs <> []).
    { destruct probs; [contradiction | discriminate]. }
    rewrite cnn_prob_scores_nonempty by assumption.
    rewrite En, cnn_raw_exact; [reflexivity |].
    rewrite length_firstn. lia.
Qed.

(** C6: the external boundary signal over [n] sentences.  An absent or
    empty probability sequence gives the uniform distribution.  A shorter
    one is kept and followed by 0.5 at the positions from its length to
    [n - 1] before normalization.  Of a longer one only the first [n]
    values are used.  The result sums to 1, is the padded or truncated
    sequence divided by its sum when that sum is positive, and is uniform
    when that sum is 0. *)
Theorem cnn_prob_scores_contract (sentences : list string) (text : string)
    (probs : list R) :
  let n := length sentences in
  let scores := _compute_cnn_prob_scores sentences text (Some probs) in
  _compute_cnn_prob_scores sentences text None = Np.uniform n /\
  _compute_cnn_prob_scores sentences text (Some []) = Np.uniform n /\
  (probs <> [] -> scores = Np.normalize n (cnn_raw n probs)) /\
  ((length probs < n)%nat ->
     firstn (length probs) (cnn_raw n probs) = probs /\
     forall i, (length probs <= i < n)%nat ->
       nth i (cnn_raw n probs) 0 = 0.5) /\
  ((n < length probs)%nat ->
     cnn_raw n probs = firstn n probs /\
     scores =
     _compute_cnn_prob_scores sentences text (Some (firstn n probs))) /\
  ((0 < n)%nat -> Np.sum scores = 1) /\
  (probs <> [] -> 0 < Np.sum (cnn_raw n probs) ->
     scores = Np.div_scalar (cnn_raw n probs) (Np.sum (cnn_raw n probs))) /\
  (probs <> [] -> Np.sum (cnn_raw n probs) = 0 -> scores = Np.uniform n).
Proof.
  intros n scores. unfold scores.
  destruct (cnn_prob_scores_absent sentences text) as [Hnone Hempty].
  split; [exact Hnone | split; [exact Hempty |]].
  split; [apply cnn_prob_scores_nonempty |].
  split; [| split; [| split; [| split]]].
  - intros Hlt. unfold cnn_raw.
    destruct (Nat.eqb_spec (length probs) n) as [He | _]; [lia |].
    destruct (Nat.ltb_spec n (length probs)) as [Hgt | _]; [lia |].
    split.
    + rewrite firstn_app, Nat.sub_diag, firstn_all. simpl.
      apply app_nil_r.
    + intros i Hi. rewrite app_nth2 by lia.
      apply nth_repeat_lt. lia.
  - intros Hgt.
    assert (Hraw : cnn_raw n probs = firstn n probs)
      by (now apply cnn_raw_longer).
    split; [exact Hraw | now apply cnn_prob_scores_truncate].
  - intros Hn. now apply sum_cnn_prob_scores.
  - intros Hp Hs. rewrite cnn_prob_scores_nonempty by assumption.
    now apply normalize_pos.
  - intros Hp Hs. rewrite cnn_prob_scores_nonempty by assumption.
    apply normalize_nonpos. fold n. lra.
Qed.

Lemma cnn_prob_scores_contract_witness :
  let short := _compute_cnn_prob_scores ["a"; "b"; "c"]%string "a b c" (Some [0.2]) in
  let long :=
    _compute_cnn_prob_scores ["a"; "b"]%string "a b c" (Some [0.2; 0.3; 0.4]) in
  (forall i, (1 <= i < 3)%nat -> nth i (cnn_raw 3 [0.2]) 0 = 0.5) /\
  short = Np.div_scalar (cnn_raw 3 [0.2]) (Np.sum (cnn_raw 3 [0.2])) /\
  Np.sum short = 1 /\
  long = _compute_cnn_prob_scores ["a"; "b"]%string "a b c" (Some [0.2; 0.3]).
Proof.
  destruct (cnn_prob_scores_contract ["a"; "b"; "c"]%string "a b c" [0.2])
    as (_ & _ & _ & Hshort & _ & Hsum & Hpos & _).
  destruct (cnn_prob_scores_contract ["a"; "b"]%string "a b c" [0.2; 0.3; 0.4])
    as (_ & _ & _ & _ & Hlong & _).
  simpl in *.
  split; [apply Hshort; lia |].
  split; [apply Hpos; [discriminate | unfold cnn_raw; simpl; lra] |].
  split; [apply Hsum; lia |].
  apply Hlong. lia.
Defined.

(** ** Every signal is a distribution *)

Lemma nonneg_firstn (n : nat) (v : list R) : nonneg v -> nonneg (firstn n v).
Proof.
  intros Hv. revert n.
  induction Hv as [| x v Hx _ IH]; intros [| n]; simpl; constructor.
  - exact Hx.
  - apply IH.
Qed.

Lemma nonneg_cnn_raw (n : nat) (probs : list R) :
  nonneg probs -> nonneg (cnn_raw n probs).
Proof.
  intros Hp. unfold cnn_raw.
  destruct (length probs =? n)%nat; [assumption |].
  destruct (n <? length probs)%nat; [now apply nonneg_firstn |].
  apply Forall_app. split; [assumption | apply nonneg_repeat; lra].
Qed.

Lemma cnn_distribution (sentences : list string) (text : string)
    (cnn_probs : option (list R)) :
  (0 < length sentences)%nat -> probs_nonneg cnn_probs ->
  distribution (length sentences)
    (_compute_cnn_prob_scores sentences text cnn_probs).
Proof.
  intros Hn Hp. destruct cnn_probs as [[| p probs] |].
  - rewrite (proj2 (cnn_prob_scores_absent sentences text)).
    now apply uniform_distribution.
  - rewrite cnn_prob_scores_nonempty by discriminate.
    apply normalize_distribution;
      [assumption | apply length_cnn_raw | now apply nonneg_cnn_raw].
  - rewrite (proj1 (cnn_prob_scores_absent sentences text)).
    now apply uniform_distribution.
Qed.

Section Signals.

Variable env : Backends.
Hypothesis env_ok : backends_ok env.

Lemma textrank_distribution (sentences : list string) :
  (0 < length sentences)%nat ->
  distribution (length sentences) (_compute_textrank_scores env sentences).
Proof.
  intros Hn. unfold _compute_textrank_scores.
  destruct (HAS_NETWORKX env); simpl;
    [| now apply uniform_distribution].
  destruct (length sentences <? 2)%nat.
  - destruct (Nat.ltb_spec 0 (length sentences)); [| lia].
    now apply uniform_distribution.
  - destruct (nx_pagerank env _ _) as [pr |] eqn:Epr.
    + apply normalize_distribution; [assumption | |].
      * now rewrite length_map, length_seq.
      * apply Forall_map, Forall_forall. intros i _.
        eapply pagerank_nonneg; eassumption.
    + apply normalize_distribution; [assumption | |];
        now apply uniform_distribution.
Qed.

Lemma tfidf_distribution (sentences : list string) :
  (0 < length sentences)%nat ->
  distribution (length sentences) (_compute_tfidf_scores env sentences).
Proof.
  intros Hn. unfold _compute_tfidf_scores.
  destruct (HAS_SKLEARN env); simpl; [| now apply uniform_distribution].
  destruct (Nat.eqb_spec (length sentences) 0); [lia |].
  destruct (tfidf_cosine env sentences) as [v |] eqn:Ev.
  - apply normalize_distribution; [assumption | |].
    + eapply tfidf_length; eassumption.
    + eapply tfidf_nonneg; eassumption.
  - now apply uniform_distribution.
Qed.

Lemma embedding_distribution (self : SentenceSummarizer)
    (sentences : list string) :
  (0 < length sentences)%nat ->
  distribution (length sentences)
    (_compute_embedding_scores env self sentences).
Proof.
  intros Hn. unfold _compute_embedding_scores.
  destruct (use_embeddings self); [| now apply tfidf_distribution].
  destruct (embedding_model self) as [m |];
    [| now apply tfidf_distribution].
  destruct (embedding_cosine env m sentences) as [v |] eqn:Ev;
    [| now apply tfidf_distribution].
  apply normalize_distribution; [assumption | |].
  - eapply embedding_length; eassumption.
  - eapply embedding_nonneg; eassumption.
Qed.

End Signals.

(** ** The aggregator *)

Lemma term_scale_distribution (n : nat) (c : R) (v : list R) :
  0 < c -> distribution n v -> term_ok n (Np.scale c v).
Proof.
  intros Hc (Hl & Hv & _). split.
  - unfold Np.scale. now rewrite length_map.
  - unfold Np.scale. apply Forall_map.
    eapply Forall_impl; [| exact Hv].
    intros x Hx. simpl in *. apply Rmult_le_pos; lra.
Qed.

Lemma term_scale_zeros (n : nat) (c : R) : term_ok n (Np.scale c (Np.zeros n)).
Proof.
  unfold Np.scale, Np.zeros. split.
  - now rewrite length_map, repeat_length.
  - apply Forall_map, Forall_forall. intros x Hx.
    apply repeat_spec in Hx. subst x. lra.
Qed.

Lemma term_add (n : nat) (u v : list R) :
  term_ok n u -> term_ok n v -> term_ok n (Np.add u v).
Proof.
  intros [Hlu Hu] [Hlv Hv]. revert n v Hlu Hlv Hv.
  induction Hu as [| x u Hx _ IH]; intros n v Hlu Hlv Hv.
  - simpl in *. split; [assumption | constructor].
  - destruct Hv as [| y v Hy Hv]; [simpl in *; congruence |].
    destruct n as [| n]; [discriminate |].
    simpl in Hlu, Hlv. injection Hlu as Hlu. injection Hlv as Hlv.
    destruct (IH n v Hlu Hlv Hv) as [Hl Hn].
    split; simpl; [now rewrite Hl | constructor; [lra | assumption]].
Qed.

Lemma normalize_term (n : nat) (v : list R) :
  (0 < n)%nat -> term_ok n v -> distribution n (Np.normalize n v).
Proof.
  intros Hn [Hl Hv]. now apply normalize_distribution.
Qed.

Create HintDb signals.

#[global] Hint Resolve term_scale_distribution term_scale_zeros term_add
  cnn_distribution textrank_distribution tfidf_distribution
  embedding_distribution position_distribution : signals.

Section Aggregator.

Variable env : Backends.
Hypothesis env_ok : backends_ok env.

Variable self : SentenceSummarizer.
Variable sentences : list string.
Variable original_text : string.
Variable cnn_probs : option (list R).

Hypothesis sentences_nonempty : (0 < length sentences)%nat.
Hypothesis cnn_probs_nonneg : probs_nonneg cnn_probs.

(** With exact arithmetic the combined vector and every recorded signal
    vector are distributions over the sentences. *)
Lemma compute_sentence_weights_exact :
  let result :=
    compute_sentence_weights env self sentences original_text cnn_probs in
  distribution (length sentences) (fst result) /\
  forall name v, In (name, v) (snd result) ->
    distribution (length sentences) v.
Proof.
  unfold compute_sentence_weights.
  destruct (Nat.eqb_spec (length sentences) 0) as [H0 | _]; [lia |].
  destruct (Rlt_dec 0 (cnn_prob_weight self));
    destruct (Rlt_dec 0 (textrank_weight self));
    destruct (Rlt_dec 0 (tfidf_weight self));
    destruct (Rlt_dec 0 (position_weight self));
    destruct (use_embeddings self) eqn:Eemb; cbn [fst snd app];
    (split;
     [ apply normalize_term; [assumption |];
       auto 8 with signals
     | intros name v Hin; cbn [In] in Hin;
       repeat (destruct Hin as [Hin | Hin];
               [injection Hin as _ <-; auto with signals |]);
       contradiction ]).
Qed.

End Aggregator.

Lemma distribution_weight_vector (n : nat) (v : list R) :
  distribution n v -> weight_vector n v.
Proof.
  intros (Hl & Hv & Hs). repeat split; try assumption.
  rewrite Hs. abs_lra.
Qed.

Lemma bare_env_ok : backends_ok bare_env.
Proof.
  constructor; simpl; intros; discriminate.
Qed.

Lemma cnn_component_recorded (env : Backends) (self : SentenceSummarizer)
    (sentences : list string) (text : string) (cnn_probs : option (list R)) :
  0 < cnn_prob_weight self -> (0 < length sentences)%nat ->
  In ("cnn_prob"%string, _compute_cnn_prob_scores sentences text cnn_probs)
     (snd (compute_sentence_weights env self sentences text cnn_probs)).
Proof.
  intros Hc Hn. unfold compute_sentence_weights.
  destruct (Nat.eqb_spec (length sentences) 0) as [H0 | _]; [lia |].
  destruct (Rlt_dec 0 (cnn_prob_weight self)); [| contradiction].
  destruct (Rlt_dec 0 (textrank_weight self));
    destruct (Rlt_dec 0 (tfidf_weight self));
    destruct (Rlt_dec 0 (position_weight self));
    destruct (use_embeddings self); cbn [fst snd app In]; auto.
Qed.

(** ** Sorting and slicing *)

Lemma insert_desc_perm (key : nat -> R) (i : nat) (l : list nat) :
  Permutation (insert_desc key i l) (i :: l).
Proof.
  induction l as [| j l IH]; simpl; [reflexivity |].
  destruct (Rlt_dec (key i) (key j)); [| reflexivity].
  rewrite IH. apply perm_swap.
Qed.

Lemma sort_by_key_reverse_perm (key : nat -> R) (l : list nat) :
  Permutation (sort_by_key_reverse key l) l.
Proof.
  induction l as [| i l IH]; simpl; [reflexivity |].
  rewrite insert_desc_perm. now apply perm_skip.
Qed.

Lemma insert_asc_perm (key : nat -> R) (i : nat) (l : list nat) :
  Permutation (insert_asc key i l) (i :: l).
Proof.
  induction l as [| j l IH]; simpl; [reflexivity |].
  destruct (Rlt_dec (key j) (key i)); [| reflexivity].
  rewrite IH. apply perm_swap.
Qed.

Lemma stable_argsort_perm (w : list R) :
  Permutation (stable_argsort w) (seq 0 (length w)).
Proof.
  unfold stable_argsort. generalize (seq 0 (length w)) as l.
  induction l as [| i l IH]; simpl; [reflexivity |].
  rewrite insert_asc_perm. now apply perm_skip.
Qed.

Lemma bare_env_argsort_ok : argsort_ok bare_env.
Proof.
  intros w. apply stable_argsort_perm.
Qed.

Lemma insert_nat_perm (i : nat) (l : list nat) :
  Permutation (insert_nat i l) (i :: l).
Proof.
  induction l as [| j l IH]; simpl; [reflexivity |].
  destruct (i <=? j)%nat; [reflexivity |].
  rewrite IH. apply perm_swap.
Qed.

Lemma sorted_perm (l : list nat) : Permutation (sorted l) l.
Proof.
  induction l as [| i l IH]; simpl; [reflexivity |].
  rewrite insert_nat_perm. now apply perm_skip.
Qed.

Lemma insert_nat_sorted (i : nat) (l : list nat) :
  StronglySorted le l -> StronglySorted le (insert_nat i l).
Proof.
  induction 1 as [| j l Hs IH Hj]; simpl.
  - repeat constructor.
  - destruct (Nat.leb_spec i j) as [Hij | Hji].
    + constructor; [now constructor |].
      constructor; [assumption |].
      eapply Forall_impl; [| exact Hj]. intros; simpl in *; lia.
    + constructor; [assumption |].
      rewrite insert_nat_perm. constructor; [lia | assumption].
Qed.

Lemma sorted_sorted (l : list nat) : StronglySorted le (sorted l).
Proof.
  induction l as [| i l IH]; simpl; [constructor |].
  now apply insert_nat_sorted.
Qed.

Lemma sorted_nodup_strict (l : list nat) :
  StronglySorted le l -> NoDup l -> StronglySorted lt l.
Proof.
  induction 1 as [| i l Hs IH Hi]; intros Hnd; [constructor |].
  inversion Hnd as [| ? ? Hnin Hnd']; subst.
  constructor; [now apply IH |].
  rewrite Forall_forall in *. intros j Hj.
  specialize (Hi j Hj). assert (i <> j) by (intros ->; contradiction).
  lia.
Qed.

(** Sorting distinct indices gives a strictly ascending list. *)
Lemma sorted_strict (l : list nat) : NoDup l -> StronglySorted lt (sorted l).
Proof.
  intros Hnd. apply sorted_nodup_strict; [apply sorted_sorted |].
  eapply Permutation_NoDup; [| exact Hnd].
  symmetry. apply sorted_perm.
Qed.

Lemma NoDup_firstn {A : Type} (n : nat) (l : list A) :
  NoDup l -> NoDup (firstn n l).
Proof.
  intros Hnd. rewrite <- (firstn_skipn n l) in Hnd.
  now apply NoDup_app_remove_r in Hnd.
Qed.

Lemma incl_firstn {A : Type} (n : nat) (l : list A) : incl (firstn n l) l.
Proof.
  intros x Hx. rewrite <- (firstn_skipn n l). apply in_or_app. now left.
Qed.

Lemma py_take_NoDup {A : Type} (n : Z) (l : list A) :
  NoDup l -> NoDup (py_take n l).
Proof.
  intros Hnd. unfold py_take. destruct (0 <=? n)%Z; now apply NoDup_firstn.
Qed.

Lemma py_take_incl {A : Type} (n : Z) (l : list A) : incl (py_take n l) l.
Proof.
  unfold py_take. destruct (0 <=? n)%Z; apply incl_firstn.
Qed.

Lemma length_py_take {A : Type} (n : Z) (l : list A) :
  length (py_take n l) =
  if (0 <=? n)%Z then Nat.min (Z.to_nat n) (length l)
  else (length l - Z.to_nat (- n))%nat.
Proof.
  unfold py_take. destruct (0 <=? n)%Z; rewrite length_firstn; lia.
Qed.

Section Selection.

Variable env : Backends.
Hypothesis env_argsort : argsort_ok env.

(** In either mode the ranking holds every index of the weight vector
    exactly once. *)
Lemma ranked_indices_perm (weights : list R) (preserve_order : bool) :
  Permutation (ranked_indices env (length weights) weights preserve_order)
    (seq 0 (length weights)).
Proof.
  unfold ranked_indices. destruct preserve_order.
  - apply sort_by_key_reverse_perm.
  - rewrite <- Permutation_rev. apply env_argsort.
Qed.

Lemma selected_indices_perm (weights : list R) (k : Z)
    (preserve_order : bool) :
  Permutation
    (selected_indices env (length weights) weights k preserve_order)
    (py_take k (ranked_indices env (length weights) weights preserve_order)).
Proof.
  apply sorted_perm.
Qed.

Lemma selected_indices_strict (weights : list R) (k : Z)
    (preserve_order : bool) :
  StronglySorted lt
    (selected_indices env (length weights) weights k preserve_order).
Proof.
  apply sorted_strict, py_take_NoDup.
  eapply Permutation_NoDup;
    [symmetry; apply ranked_indices_perm | apply seq_NoDup].
Qed.

Lemma selected_indices_bound (weights : list R) (k : Z)
    (preserve_order : bool) :
  Forall (fun i => (i < length weights)%nat)
    (selected_indices env (length weights) weights k preserve_order).
Proof.
  apply Forall_forall. intros i Hi.
  eapply Permutation_in in Hi; [| apply selected_indices_perm].
  apply py_take_incl in Hi.
  eapply Permutation_in in Hi; [| apply ranked_indices_perm].
  apply in_seq in Hi. lia.
Qed.

Lemma length_selected_indices (weights : list R) (k : Z)
    (preserve_order : bool) :
  length (selected_indices env (length weights) weights k preserve_order) =
  if (0 <=? k)%Z then Nat.min (Z.to_nat k) (length weights)
  else (length weights - Z.to_nat (- k))%nat.
Proof.
  rewrite (Permutation_length (selected_indices_perm _ _ _)).
  rewrite length_py_take.
  now rewrite (Permutation_length (ranked_indices_perm _ _)), length_seq.
Qed.

End Selection.

(** ** Length of the weight vector *)

Lemma length_scale (c : R) (v : list R) : length (Np.scale c v) = length v.
Proof. apply length_map. Qed.

Lemma length_zeros (n : nat) : length (Np.zeros n) = n.
Proof. apply repeat_length. Qed.

Lemma length_add (n : nat) (u v : list R) :
  length u = n -> length v = n -> length (Np.add u v) = n.
Proof.
  revert n v. induction u as [| x u IH]; intros n [| y v] Hu Hv;
    simpl in *; try congruence.
  destruct n as [| n]; [discriminate |].
  f_equal. apply IH; congruence.
Qed.

Lemma length_position_scores (sentences : list string) :
  length (_compute_position_scores sentences) = length sentences.
Proof.
  unfold _compute_position_scores.
  destruct (Nat.eqb_spec (length sentences) 0) as [H0 | _];
    [now rewrite H0 |].
  apply normalize_length, length_position_raw.
Qed.

Section Lengths.

Variable env : Backends.
Hypothesis env_ok : backends_ok env.

Lemma length_textrank_scores (sentences : list string) :
  length (_compute_textrank_scores env sentences) = length sentences.
Proof.
  unfold _compute_textrank_scores.
  destruct (HAS_NETWORKX env); simpl; [| apply length_uniform].
  destruct (Nat.ltb_spec (length sentences) 2).
  - destruct (Nat.ltb_spec 0 (length sentences));
      [apply length_uniform | simpl; lia].
  - apply normalize_length.
    destruct (nx_pagerank env _ _);
      [now rewrite length_map, length_seq | apply length_uniform].
Qed.

Lemma length_tfidf_scores (sentences : list string) :
  length (_compute_tfidf_scores env sentences) = length sentences.
Proof.
  unfold _compute_tfidf_scores.
  destruct (HAS_SKLEARN env); simpl; [| apply length_uniform].
  destruct (Nat.eqb_spec (length sentences) 0) as [H0 | _];
    [now rewrite H0 |].
  destruct (tfidf_cosine env sentences) as [v |] eqn:Ev;
    [| apply length_uniform].
  apply normalize_length. eapply tfidf_length; eassumption.
Qed.

Lemma length_embedding_scores (self : SentenceSummarizer)
    (sentences : list string) :
  length (_compute_embedding_scores env self sentences) = length sentences.
Proof.
  unfold _compute_embedding_scores.
  destruct (use_embeddings self); [| apply length_tfidf_scores].
  destruct (embedding_model self) as [m |]; [| apply length_tfidf_scores].
  destruct (embedding_cosine env m sentences) as [v |] eqn:Ev;
    [| apply length_tfidf_scores].
  apply normalize_length. eapply embedding_length; eassumption.
Qed.

Lemma length_compute_sentence_weights (self : SentenceSummarizer)
    (sentences : list string) (text : string) (cnn_probs : option (list R)) :
  length (fst (compute_sentence_weights env self sentences text cnn_probs)) =
  length sentences.
Proof.
  unfold compute_sentence_weights.
  destruct (Nat.eqb_spec (length sentences) 0) as [H0 | _];
    [now rewrite H0 |].
  destruct (Rlt_dec 0 (cnn_prob_weight self));
    destruct (Rlt_dec 0 (textrank_weight self));
    destruct (Rlt_dec 0 (tfidf_weight self));
    destruct (Rlt_dec 0 (position_weight self));
    destruct (use_embeddings self); cbn [fst];
    apply normalize_length;
    repeat apply length_add; rewrite length_scale;
    auto using length_zeros, length_cnn_prob_scores, length_textrank_scores,
      length_tfidf_scores, length_embedding_scores, length_position_scores.
Qed.

End Lengths.

(** ** Summaries *)

Lemma summarize_nonempty (env : Backends) (self : SentenceSummarizer)
    (sentences : list string) (text : string) (cnn_probs : option (list R))
    (compression : option R) (top_k : option Z) (preserve_order : bool) :
  (0 < length sentences)%nat ->
  let csw := compute_sentence_weights env self sentences text cnn_probs in
  summarize env self sentences text cnn_probs compression top_k
    preserve_order =
  (map (fun i => nth i sentences EmptyString)
     (selected_indices env (length sentences) (fst csw)
        (n_select (length sentences) compression top_k) preserve_order),
   fst csw, snd csw).
Proof.
  intros Hn csw. unfold summarize.
  destruct (Nat.eqb_spec (length sentences) 0) as [H0 | _]; [lia |].
  fold csw. now destruct csw.
Qed.

(** C9: on an empty sentence list [compute_sentence_weights] returns an
    empty weight vector and an empty component map, and [summarize]
    returns an empty sentence list, an empty weight vector and an empty
    component map, whatever the other arguments are. *)
Theorem empty_input_empty_output (env : Backends) (self : SentenceSummarizer)
    (text : string) (cnn_probs : option (list R)) (compression : option R)
    (top_k : option Z) (preserve_order : bool) :
  compute_sentence_weights env self [] text cnn_probs = ([], []) /\
  summarize env self [] text cnn_probs compression top_k preserve_order =
  ([], [], []).
Proof.
  split; reflexivity.
Qed.

(** C10: the weight vector and the component map that [summarize] returns
    are those of [compute_sentence_weights] on the same sentences, text
    and boundary probabilities. *)
Theorem summarize_returns_computed_weights (env : Backends)
    (self : SentenceSummarizer) (sentences : list string) (text : string)
    (cnn_probs : option (list R)) (compression : option R)
    (top_k : option Z) (preserve_order : bool) :
  let r := summarize env self sentences text cnn_probs compression top_k
             preserve_order in
  (summary_weights r, summary_components r) =
  compute_sentence_weights env self sentences text cnn_probs.
Proof.
  destruct sentences as [| s sentences]; [reflexivity |].
  cbv zeta. rewrite summarize_nonempty by (simpl; lia).
  unfold summary_weights, summary_components. simpl fst. simpl snd.
  now destruct (compute_sentence_weights env self (s :: sentences) text
                  cnn_probs).
Qed.

(** C5: the sentences [summarize] returns from a non-empty input are the
    sentences at a strictly ascending list of valid indices, with
    [preserve_order] true and with [preserve_order] false alike. *)
Theorem summarize_ascending (env : Backends) (self : SentenceSummarizer)
    (sentences : list string) (text : string) (cnn_probs : option (list R))
    (compression : option R) (top_k : option Z) (preserve_order : bool) :
  backends_ok env -> argsort_ok env ->
  (0 < length sentences)%nat ->
  exists indices,
    summary_sentences
      (summarize env self sentences text cnn_probs compression top_k
         preserve_order) =
    map (fun i => nth i sentences EmptyString) indices /\
    StronglySorted lt indices /\
    Forall (fun i => (i < length sentences)%nat) indices.
Proof.
  intros Henv Hsort Hn.
  rewrite summarize_nonempty by assumption.
  unfold summary_sentences. simpl fst.
  pose proof (length_compute_sentence_weights env Henv self sentences text
                cnn_probs) as Hlen.
  eexists. split; [reflexivity |].
  rewrite <- Hlen. split.
  - now apply selected_indices_strict.
  - now apply selected_indices_bound.
Qed.

Lemma summarize_ascending_witness :
  exists indices,
    summary_sentences
      (summarize bare_env default_summarizer ["a"; "b"; "c"]%string "a b c"
         None None (Some 2%Z) false) =
    map (fun i => nth i ["a"; "b"; "c"]%string EmptyString) indices /\
    StronglySorted lt indices /\
    Forall (fun i => (i < 3)%nat) indices.
Proof.
  apply (summarize_ascending bare_env default_summarizer
           ["a"; "b"; "c"]%string "a b c" None None (Some 2%Z) false).
  - exact bare_env_ok.
  - exact bare_env_argsort_ok.
  - simpl. lia.
Defined.

(** ** How many sentences are selected *)

Lemma py_int_nonneg (x : R) : 0 <= x -> py_int x = Zfloor x.
Proof.
  intros Hx. unfold py_int. now destruct (Rle_dec 0 x).
Qed.

(** In exact arithmetic [int(n * 0.3)] is the integer quotient of [3 n]
    by 10. *)
Lemma py_int_three_tenths (n : nat) :
  py_int (INR n * 0.3) = (3 * Z.of_nat n / 10)%Z.
Proof.
  assert (Hn : 0 <= INR n) by apply pos_INR.
  rewrite py_int_nonneg by lra.
  apply Zfloor_eq. rewrite INR_IZR_INZ.
  pose proof (Z.div_mod (3 * Z.of_nat n) 10 ltac:(lia)) as Hdm.
  pose proof (Z.mod_pos_bound (3 * Z.of_nat n) 10 ltac:(lia)) as [Hr0 Hr9].
  set (q := (3 * Z.of_nat n / 10)%Z) in *.
  set (r := ((3 * Z.of_nat n) mod 10)%Z) in *.
  apply (f_equal IZR) in Hdm.
  rewrite plus_IZR, !mult_IZR in Hdm.
  apply IZR_le in Hr0. assert (Hr : (r <= 9)%Z) by lia.
  apply IZR_le in Hr. lra.
Qed.

Lemma n_select_top_k (n : nat) (compression : option R) (k : Z) :
  n_select n compression (Some k) = Z.min k (Z.of_nat n).
Proof. reflexivity. Qed.

Lemma n_select_compression (n : nat) (r : R) :
  0 < r -> n_select n (Some r) None = Z.max 1 (Zfloor (INR n * r)).
Proof.
  intros Hr. unfold n_select. rewrite py_int_nonneg; [reflexivity |].
  apply Rmult_le_pos; [apply pos_INR | lra].
Qed.

Lemma n_select_default (n : nat) :
  n_select n None None = Z.max 2 (3 * Z.of_nat n / 10).
Proof.
  unfold n_select. now rewrite py_int_three_tenths.
Qed.

(** With a ratio in (0, 1] the count never exceeds the sentence count. *)
Lemma n_select_compression_bound (n : nat) (r : R) :
  (0 < n)%nat -> 0 < r <= 1 ->
  (1 <= n_select n (Some r) None <= Z.of_nat n)%Z.
Proof.
  intros Hn [Hr0 Hr1]. rewrite n_select_compression by assumption.
  assert (Hfl : (Zfloor (INR n * r) <= Z.of_nat n)%Z).
  { rewrite <- (ZfloorZ (Z.of_nat n)). apply Zfloor_le.
    rewrite <- INR_IZR_INZ. pose proof (pos_INR n). nra. }
  lia.
Qed.

Section Count.

Variable env : Backends.
Hypothesis env_ok : backends_ok env.
Hypothesis env_argsort : argsort_ok env.

(** The number of sentences [summarize] returns, in terms of [n_select]:
    a negative [n_select] drops that many indices from the end of the
    ranking. *)
Lemma length_summarize (self : SentenceSummarizer) (sentences : list string)
    (text : string) (cnn_probs : option (list R)) (compression : option R)
    (top_k : option Z) (preserve_order : bool) :
  (0 < length sentences)%nat ->
  let k := n_select (length sentences) compression top_k in
  length (summary_sentences
            (summarize env self sentences text cnn_probs compression top_k
               preserve_order)) =
  if (0 <=? k)%Z then Nat.min (Z.to_nat k) (length sentences)
  else (length sentences - Z.to_nat (- k))%nat.
Proof.
  intros Hn k. rewrite summarize_nonempty by assumption.
  unfold summary_sentences. simpl fst. rewrite length_map.
  pose proof (length_compute_sentence_weights env env_ok self sentences text
                cnn_probs) as Hlen.
  rewrite <- Hlen at 1. rewrite length_selected_indices by assumption.
  now rewrite Hlen.
Qed.

(** When the resolved count is at least 1, which it is for every
    [top_k >= 1] and whenever [top_k] is absent, [summarize] returns the
    smaller of that count and the sentence count, and at least one
    sentence. *)
Lemma summarize_count (self : SentenceSummarizer) (sentences : list string)
    (text : string) (cnn_probs : option (list R)) (compression : option R)
    (top_k : option Z) (preserve_order : bool) :
  (0 < length sentences)%nat ->
  (forall k, top_k = Some k -> (1 <= k)%Z) ->
  let count := n_select (length sentences) compression top_k in
  let selected :=
    summary_sentences
      (summarize env self sentences text cnn_probs compression top_k
         preserve_order) in
  (1 <= count)%Z /\
  Z.of_nat (length selected) = Z.min count (Z.of_nat (length sentences)) /\
  (1 <= length selected)%nat.
Proof.
  intros Hn Hk count selected.
  assert (Hc : (1 <= count)%Z).
  { unfold count, n_select. destruct top_k as [k |].
    - specialize (Hk k eq_refl). lia.
    - destruct compression; lia. }
  unfold selected. rewrite length_summarize by assumption. fold count.
  destruct (Z.leb_spec 0 count); lia.
Qed.

End Count.

(** C1 (defect): [top_k] has no lower clamp.  On three sentences
    [top_k = 0] selects no sentence, and [top_k = -1] selects two, the
    negative count being taken as a slice bound from the end. *)
Theorem summarize_top_k_not_clamped_below :
  let run top_k :=
    summarize bare_env default_summarizer ["a"; "b"; "c"]%string "a b c"
      None None (Some top_k) true in
  n_select 3 None (Some 0%Z) = 0%Z /\
  summary_sentences (run 0%Z) = [] /\
  n_select 3 None (Some (-1)%Z) = (-1)%Z /\
  length (summary_sentences (run (-1)%Z)) = 2%nat.
Proof.
  cbv zeta. split; [reflexivity |]. split; [| split; [reflexivity |]].
  - apply length_zero_iff_nil.
    now rewrite (length_summarize bare_env bare_env_ok bare_env_argsort_ok)
      by (simpl; lia).
  - now rewrite (length_summarize bare_env bare_env_ok bare_env_argsort_ok)
      by (simpl; lia).
Qed.

(** ** Ranking and ties *)

Lemma insert_desc_ranked (key : nat -> R) (i : nat) (l : list nat) :
  StronglySorted (ranks_before key) l ->
  Forall (fun j => (i < j)%nat) l ->
  StronglySorted (ranks_before key) (insert_desc key i l).
Proof.
  induction 1 as [| j l Hs IH Hj]; intros Hi; simpl.
  - repeat constructor.
  - inversion Hi as [| ? ? Hij Hil]; subst.
    destruct (Rlt_dec (key i) (key j)) as [Hlt | Hge].
    + constructor; [now apply IH |].
      rewrite insert_desc_perm. constructor; [now left | assumption].
    + constructor; [now constructor |].
      assert (Hrank : forall x, key x <= key i -> (i < x)%nat ->
                ranks_before key i x).
      { intros x Hx Hix. destruct (Rlt_dec (key x) (key i));
          [now left | right; split; [lra | assumption]]. }
      constructor; [apply Hrank; [lra | assumption] |].
      rewrite Forall_forall in *. intros x Hx.
      apply Hrank; [| now apply Hil].
      destruct (Hj x Hx) as [Hxj | [Hxj _]]; lra.
Qed.

(** With [preserve_order] true the ranking is by weight descending, ties
    by index ascending. *)
Lemma sort_by_key_reverse_ranked (key : nat -> R) (l : list nat) :
  StronglySorted lt l ->
  StronglySorted (ranks_before key) (sort_by_key_reverse key l).
Proof.
  induction 1 as [| i l Hs IH Hi]; simpl; [constructor |].
  apply insert_desc_ranked; [assumption |].
  now rewrite sort_by_key_reverse_perm.
Qed.

Lemma seq_strict (start len : nat) : StronglySorted lt (seq start len).
Proof.
  revert start. induction len as [| len IH]; intros start; simpl;
    constructor; [apply IH |].
  apply Forall_forall. intros j Hj. apply in_seq in Hj. lia.
Qed.

Lemma ranked_indices_preserve_order (env : Backends) (n : nat)
    (weights : list R) :
  StronglySorted (ranks_before (fun i => nth i weights 0))
    (ranked_indices env n weights true).
Proof.
  apply sort_by_key_reverse_ranked, seq_strict.
Qed.

(** Two equal weights: the stable descending sort keeps index 0 first, the
    reversed ascending argsort puts index 1 first. *)
Lemma ranked_indices_tie (w : R) :
  ranked_indices bare_env 2 [w; w] true = [0; 1]%nat /\
  ranked_indices bare_env 2 [w; w] false = [1; 0]%nat.
Proof.
  unfold ranked_indices, sort_by_key_reverse, stable_argsort. simpl.
  unfold stable_argsort. simpl.
  destruct (Rlt_dec w w) as [Hlt | _]; [lra |]. split; reflexivity.
Qed.

Lemma boundary_only_constructed :
  __init__ bare_env 1 0 0 0 false "all-MiniLM-L6-v2" = Ok (boundary_only, []).
Proof.
  unfold __init__.
  destruct (Rlt_dec 1e-6 (Rabs (1 + 0 + 0 + 0 - 1))) as [Hlt | _];
    [exfalso; abs_lra | reflexivity].
Qed.

Lemma boundary_only_two_weights :
  exists w,
    fst (compute_sentence_weights bare_env boundary_only ["a"; "b"]%string
           "a b" None) = [w; w].
Proof.
  unfold compute_sentence_weights. simpl.
  destruct (Rlt_dec 0 1) as [_ | Hn]; [| lra].
  destruct (Rlt_dec 0 0) as [Hlt | _]; [lra |].
  cbn [fst]. unfold Np.normalize.
  destruct (Rlt_dec 0 _); simpl; eexists; reflexivity.
Qed.

(** C4 (defect): two sentences of equal combined weight and [top_k = 1].
    With [preserve_order] true the first sentence is selected; with
    [preserve_order] false the second is, the tie going to the larger
    index. *)
Theorem tie_break_depends_on_preserve_order :
  let run preserve_order :=
    summarize bare_env boundary_only ["a"; "b"]%string "a b" None None
      (Some 1%Z) preserve_order in
  summary_sentences (run true) = ["a"%string] /\
  summary_sentences (run false) = ["b"%string].
Proof.
  cbv zeta. rewrite !summarize_nonempty by (simpl; lia).
  destruct boundary_only_two_weights as [w Hw]. rewrite Hw.
  unfold summary_sentences, selected_indices. cbn [fst length].
  destruct (ranked_indices_tie w) as [-> ->].
  split; reflexivity.
Qed.

(** * Further properties of the module *)

(** ** Construction, continued *)

Lemma init_ok_inv (env : Backends) (c t f p : R) (b : bool) (name : string)
    (self : SentenceSummarizer) (ws : list warning) :
  __init__ env c t f p b name = Ok (self, ws) ->
  c + t + f + p <> 0 /\
  ((Rabs (c + t + f + p - 1) <= 1e-6 /\
    (self, ws) = init_embeddings env c t f p b name []) \/
   (1e-6 < Rabs (c + t + f + p - 1) /\
    (self, ws) =
    init_embeddings env (c / (c + t + f + p)) (t / (c + t + f + p))
      (f / (c + t + f + p)) (p / (c + t + f + p)) b name
      [WeightsSumWarning (c + t + f + p)])).
Proof.
  unfold __init__. intros H.
  destruct (Rlt_dec 1e-6 (Rabs (c + t + f + p - 1))) as [Hlt | Hle].
  - destruct (Req_dec_T (c + t + f + p) 0) as [Hz | Hnz]; [discriminate |].
    injection H as H. split; [assumption | right; split; auto].
  - injection H as H. apply Rnot_lt_le in Hle. split.
    + intros Hz. rewrite Hz in Hle. abs_lra.
    + left. split; auto.
Qed.

Lemma init_ok_weights (env : Backends) (c t f p : R) (b : bool)
    (name : string) (self : SentenceSummarizer) (ws : list warning) :
  __init__ env c t f p b name = Ok (self, ws) ->
  c + t + f + p <> 0 /\
  ((Rabs (c + t + f + p - 1) <= 1e-6 /\
    cnn_prob_weight self = c /\ textrank_weight self = t /\
    tfidf_weight self = f /\ position_weight self = p) \/
   (1e-6 < Rabs (c + t + f + p - 1) /\
    cnn_prob_weight self = c / (c + t + f + p) /\
    textrank_weight self = t / (c + t + f + p) /\
    tfidf_weight self = f / (c + t + f + p) /\
    position_weight self = p / (c + t + f + p))).
Proof.
  intros H. destruct (init_ok_inv _ _ _ _ _ _ _ _ _ H) as [Hnz [[Ht E] | [Ht E]]];
    (split; [assumption |]).
  - left. split; [assumption |].
    pose proof (init_embeddings_weights env c t f p b name []) as Hw.
    rewrite <- E in Hw. exact Hw.
  - right. split; [assumption |].
    pose proof (init_embeddings_weights env (c / (c + t + f + p))
                  (t / (c + t + f + p)) (f / (c + t + f + p))
                  (p / (c + t + f + p)) b name
                  [WeightsSumWarning (c + t + f + p)]) as Hw.
    rewrite <- E in Hw. exact Hw.
Qed.

Lemma init_ok_total (env : Backends) (c t f p : R) (b : bool)
    (name : string) (self : SentenceSummarizer) (ws : list warning) :
  __init__ env c t f p b name = Ok (self, ws) ->
  Rabs (coefficient_total self - 1) <= 1e-6 /\
  (0 < cnn_prob_weight self \/ 0 < textrank_weight self \/
   0 < tfidf_weight self \/ 0 < position_weight self).
Proof.
  intros H.
  destruct (init_ok_weights _ _ _ _ _ _ _ _ _ H)
    as [Hnz [(Ht & Hc & Htr & Hf & Hp) | (Ht & Hc & Htr & Hf & Hp)]].
  - assert (Htot : coefficient_total self = c + t + f + p)
      by (unfold coefficient_total; now rewrite Hc, Htr, Hf, Hp).
    split; [now rewrite Htot |].
    rewrite Hc, Htr, Hf, Hp.
    assert (0 < c + t + f + p) by abs_lra.
    destruct (Rlt_dec 0 c); [now left |].
    destruct (Rlt_dec 0 t); [now right; left |].
    destruct (Rlt_dec 0 f); [now right; right; left |].
    right; right; right. lra.
  - assert (Htot : coefficient_total self = 1).
    { unfold coefficient_total. rewrite Hc, Htr, Hf, Hp. now field. }
    split; [rewrite Htot; abs_lra |].
    unfold coefficient_total in Htot.
    destruct (Rlt_dec 0 (cnn_prob_weight self)); [now left |].
    destruct (Rlt_dec 0 (textrank_weight self)); [now right; left |].
    destruct (Rlt_dec 0 (tfidf_weight self)); [now right; right; left |].
    right; right; right. lra.
Qed.

(** X1: whenever construction succeeds, the four stored coefficients total
    1 within 1e-6, so at least one of them is strictly positive. *)
Theorem init_total_invariant (env : Backends) (c t f p : R) (b : bool)
    (name : string) (self : SentenceSummarizer) (ws : list warning) :
  __init__ env c t f p b name = Ok (self, ws) ->
  Rabs (coefficient_total self - 1) <= 1e-6 /\
  (0 < cnn_prob_weight self \/ 0 < textrank_weight self \/
   0 < tfidf_weight self \/ 0 < position_weight self).
Proof.
  apply init_ok_total.
Qed.

Lemma init_bare_quarters :
  __init__ bare_env 2 2 2 2 true "all-MiniLM-L6-v2" =
  Ok ({| cnn_prob_weight := 2 / (2 + 2 + 2 + 2);
         textrank_weight := 2 / (2 + 2 + 2 + 2);
         tfidf_weight := 2 / (2 + 2 + 2 + 2);
         position_weight := 2 / (2 + 2 + 2 + 2);
         use_embeddings := false; embedding_model := None |},
      [WeightsSumWarning (2 + 2 + 2 + 2)]).
Proof.
  unfold __init__.
  destruct (Rlt_dec 1e-6 (Rabs (2 + 2 + 2 + 2 - 1))) as [_ | Hn];
    [| exfalso; apply Hn; abs_lra].
  destruct (Req_dec_T (2 + 2 + 2 + 2) 0) as [Hz | _]; [lra | reflexivity].
Qed.

Lemma init_total_invariant_witness :
  let self :=
    {| cnn_prob_weight := 2 / (2 + 2 + 2 + 2);
       textrank_weight := 2 / (2 + 2 + 2 + 2);
       tfidf_weight := 2 / (2 + 2 + 2 + 2);
       position_weight := 2 / (2 + 2 + 2 + 2);
       use_embeddings := false; embedding_model := None |} in
  Rabs (coefficient_total self - 1) <= 1e-6 /\
  (0 < cnn_prob_weight self \/ 0 < textrank_weight self \/
   0 < tfidf_weight self \/ 0 < position_weight self).
Proof.
  exact (init_total_invariant bare_env 2 2 2 2 true "all-MiniLM-L6-v2" _ _
           init_bare_quarters).
Defined.

(** X2: after a successful construction, embeddings are in use exactly
    when they were requested, sentence-transformers is installed and the
    model loaded; the model is stored exactly then; and the model warning
    is issued exactly when it was requested, the library is installed and
    loading failed. *)
Theorem init_embedding_state (env : Backends) (c t f p : R) (b : bool)
    (name : string) (self : SentenceSummarizer) (ws : list warning) :
  __init__ env c t f p b name = Ok (self, ws) ->
  let loaded := b && HAS_SENTENCE_TRANSFORMERS env && load_model env name in
  let failed :=
    b && HAS_SENTENCE_TRANSFORMERS env && negb (load_model env name) in
  use_embeddings self = loaded /\
  embedding_model self = (if loaded then Some name else None) /\
  (In ModelLoadWarning ws <-> failed = true).
Proof.
  intros H loaded failed. unfold loaded, failed.
  destruct (init_ok_inv _ _ _ _ _ _ _ _ _ H) as [_ [[_ E] | [_ E]]];
    unfold init_embeddings in E;
    destruct (b && HAS_SENTENCE_TRANSFORMERS env);
    destruct (load_model env name);
    injection E as -> ->; simpl;
    (split; [reflexivity | split; [reflexivity |]]);
    split; intros Hin; try discriminate; auto;
    repeat (destruct Hin as [Hin | Hin]; try discriminate); contradiction.
Qed.

Lemma init_embedding_state_witness :
  let self :=
    {| cnn_prob_weight := 2 / (2 + 2 + 2 + 2);
       textrank_weight := 2 / (2 + 2 + 2 + 2);
       tfidf_weight := 2 / (2 + 2 + 2 + 2);
       position_weight := 2 / (2 + 2 + 2 + 2);
       use_embeddings := false; embedding_model := None |} in
  use_embeddings self = false /\
  embedding_model self = None /\
  (In ModelLoadWarning [WeightsSumWarning (2 + 2 + 2 + 2)] <-> false = true).
Proof.
  exact (init_embedding_state bare_env 2 2 2 2 true "all-MiniLM-L6-v2" _ _
           init_bare_quarters).
Defined.

(** X3: which signals a successful construction leaves enabled.  With a
    positive total a stored coefficient is positive exactly when the given
    one is; with a negative total, exactly when the given one is
    negative. *)
Theorem init_enabled_signals (env : Backends) (c t f p : R) (b : bool)
    (name : string) (self : SentenceSummarizer) (ws : list warning) :
  __init__ env c t f p b name = Ok (self, ws) ->
  (0 < c + t + f + p ->
   (0 < cnn_prob_weight self <-> 0 < c) /\
   (0 < textrank_weight self <-> 0 < t) /\
   (0 < tfidf_weight self <-> 0 < f) /\
   (0 < position_weight self <-> 0 < p)) /\
  (c + t + f + p < 0 ->
   (0 < cnn_prob_weight self <-> c < 0) /\
   (0 < textrank_weight self <-> t < 0) /\
   (0 < tfidf_weight self <-> f < 0) /\
   (0 < position_weight self <-> p < 0)).
Proof.
  intros H.
  assert (Hpos : forall x s, 0 < s -> (0 < x / s <-> 0 < x)).
  { intros x s Hs. pose proof (Rinv_0_lt_compat s Hs). unfold Rdiv. split.
    - intros Hx. destruct (Rlt_dec 0 x); [assumption |]. nra.
    - intros Hx. nra. }
  assert (Hneg : forall x s, s < 0 -> (0 < x / s <-> x < 0)).
  { intros x s Hs. pose proof (Rinv_lt_0_compat s Hs). unfold Rdiv. split.
    - intros Hx. destruct (Rlt_dec x 0); [assumption |]. nra.
    - intros Hx. nra. }
  destruct (init_ok_weights _ _ _ _ _ _ _ _ _ H)
    as [Hnz [(Ht & -> & -> & -> & ->) | (Ht & -> & -> & -> & ->)]].
  - split; [intros _; repeat split; auto |].
    intros Hs. exfalso. abs_lra.
  - split; intros Hs; repeat split; (apply Hpos || apply Hneg); assumption.
Qed.

Lemma init_bare_negative :
  __init__ bare_env (-1) (-1) 0 0 false "all-MiniLM-L6-v2" =
  Ok ({| cnn_prob_weight := -1 / (-1 + -1 + 0 + 0);
         textrank_weight := -1 / (-1 + -1 + 0 + 0);
         tfidf_weight := 0 / (-1 + -1 + 0 + 0);
         position_weight := 0 / (-1 + -1 + 0 + 0);
         use_embeddings := false; embedding_model := None |},
      [WeightsSumWarning (-1 + -1 + 0 + 0)]).
Proof.
  unfold __init__.
  destruct (Rlt_dec 1e-6 (Rabs (-1 + -1 + 0 + 0 - 1))) as [_ | Hn];
    [| exfalso; apply Hn; abs_lra].
  destruct (Req_dec_T (-1 + -1 + 0 + 0) 0) as [Hz | _]; [lra | reflexivity].
Qed.

Lemma init_enabled_signals_witness :
  let self :=
    {| cnn_prob_weight := -1 / (-1 + -1 + 0 + 0);
       textrank_weight := -1 / (-1 + -1 + 0 + 0);
       tfidf_weight := 0 / (-1 + -1 + 0 + 0);
       position_weight := 0 / (-1 + -1 + 0 + 0);
       use_embeddings := false; embedding_model := None |} in
  (0 < cnn_prob_weight self <-> -1 < 0) /\
  (0 < textrank_weight self <-> -1 < 0) /\
  (0 < tfidf_weight self <-> 0 < 0) /\
  (0 < position_weight self <-> 0 < 0).
Proof.
  apply (init_enabled_signals bare_env (-1) (-1) 0 0 false
           "all-MiniLM-L6-v2" _ _ init_bare_negative).
  lra.
Defined.

(** ** The aggregator, continued *)

(** [compute_sentence_weights] on a non-empty input, with the four
    branches on the coefficients written once. *)
Lemma compute_sentence_weights_eq (env : Backends) (self : SentenceSummarizer)
    (sentences : list string) (text : string) (cnn_probs : option (list R)) :
  (0 < length sentences)%nat ->
  let n := length sentences in
  compute_sentence_weights env self sentences text cnn_probs =
  (Np.normalize n
     (Np.add (Np.add (Np.add
        (Np.scale (cnn_prob_weight self)
           (effective n (cnn_prob_weight self)
              (_compute_cnn_prob_scores sentences text cnn_probs)))
        (Np.scale (textrank_weight self)
           (effective n (textrank_weight self)
              (_compute_textrank_scores env sentences))))
        (Np.scale (tfidf_weight self)
           (effective n (tfidf_weight self)
              (similarity_signal env self sentences))))
        (Np.scale (position_weight self)
           (effective n (position_weight self)
              (_compute_position_scores sentences)))),
   recorded (cnn_prob_weight self) "cnn_prob"
     (_compute_cnn_prob_scores sentences text cnn_probs) ++
   recorded (textrank_weight self) "textrank"
     (_compute_textrank_scores env sentences) ++
   recorded (tfidf_weight self) (similarity_key self)
     (similarity_signal env self sentences) ++
   recorded (position_weight self) "position"
     (_compute_position_scores sentences)).
Proof.
  intros Hn n. unfold compute_sentence_weights.
  destruct (Nat.eqb_spec (length sentences) 0) as [H0 | _]; [lia |].
  unfold effective, recorded, similarity_signal, similarity_key. fold n.
  destruct (Rlt_dec 0 (cnn_prob_weight self));
    destruct (Rlt_dec 0 (textrank_weight self));
    destruct (Rlt_dec 0 (tfidf_weight self));
    destruct (Rlt_dec 0 (position_weight self));
    destruct (use_embeddings self); reflexivity.
Qed.

Lemma similarity_key_cases (self : SentenceSummarizer) :
  similarity_key self = "embeddings"%string \/
  similarity_key self = "tfidf"%string.
Proof.
  unfold similarity_key. destruct (use_embeddings self); auto.
Qed.

(** X4: on a non-empty input the component map has no duplicate key; it
    holds the key of a signal exactly when the coefficient of that signal
    is positive, the similarity signal being filed under "embeddings" when
    embeddings are in use and under "tfidf" otherwise, never under both. *)
Theorem component_map_keys (env : Backends) (self : SentenceSummarizer)
    (sentences : list string) (text : string) (cnn_probs : option (list R)) :
  (0 < length sentences)%nat ->
  let keys :=
    map fst (snd (compute_sentence_weights env self sentences text
                    cnn_probs)) in
  NoDup keys /\
  (In "cnn_prob"%string keys <-> 0 < cnn_prob_weight self) /\
  (In "textrank"%string keys <-> 0 < textrank_weight self) /\
  (In "position"%string keys <-> 0 < position_weight self) /\
  (In "embeddings"%string keys <->
   0 < tfidf_weight self /\ use_embeddings self = true) /\
  (In "tfidf"%string keys <->
   0 < tfidf_weight self /\ use_embeddings self = false).
Proof.
  intros Hn keys. unfold keys.
  rewrite compute_sentence_weights_eq by assumption. cbn [snd].
  unfold recorded, similarity_key.
  destruct (Rlt_dec 0 (cnn_prob_weight self));
    destruct (Rlt_dec 0 (textrank_weight self));
    destruct (Rlt_dec 0 (tfidf_weight self));
    destruct (Rlt_dec 0 (position_weight self));
    destruct (use_embeddings self); cbn [app map fst];
    (split;
     [ repeat constructor; cbn [In]; intuition discriminate
     | repeat split; intros; cbn [In] in *;
       repeat match goal with
              | H : _ \/ _ |- _ => destruct H
              | H : _ /\ _ |- _ => destruct H
              end;
       try discriminate; try contradiction; try assumption; auto 6 ]).
Qed.

Lemma component_map_keys_witness :
  let keys :=
    map fst (snd (compute_sentence_weights bare_env default_summarizer
                    ["a"; "b"]%string "a b" None)) in
  NoDup keys /\
  (In "cnn_prob"%string keys <-> 0 < 0.25) /\
  (In "textrank"%string keys <-> 0 < 0.35) /\
  (In "position"%string keys <-> 0 < 0.10) /\
  (In "embeddings"%string keys <-> 0 < 0.30 /\ false = true) /\
  (In "tfidf"%string keys <-> 0 < 0.30 /\ false = false).
Proof.
  apply (component_map_keys bare_env default_summarizer ["a"; "b"]%string
           "a b" None).
  simpl. lia.
Defined.

(** X5: when the coefficient of the boundary signal is not positive, the
    boundary probabilities have no effect: [summarize] returns the same
    sentences, weights and component map whatever [cnn_probs] is. *)
Theorem disabled_boundary_signal_ignores_probs (env : Backends)
    (self : SentenceSummarizer) (sentences : list string) (text : string)
    (cnn_probs cnn_probs' : option (list R)) (compression : option R)
    (top_k : option Z) (preserve_order : bool) :
  cnn_prob_weight self <= 0 ->
  summarize env self sentences text cnn_probs compression top_k
    preserve_order =
  summarize env self sentences text cnn_probs' compression top_k
    preserve_order.
Proof.
  intros Hc. destruct sentences as [| s sentences]; [reflexivity |].
  rewrite !summarize_nonempty by (simpl; lia). cbv zeta.
  rewrite !compute_sentence_weights_eq by (simpl; lia).
  unfold effective, recorded.
  destruct (Rlt_dec 0 (cnn_prob_weight self)); [lra | reflexivity].
Qed.

Lemma disabled_boundary_signal_ignores_probs_witness :
  summarize bare_env
    {| cnn_prob_weight := 0; textrank_weight := 0.5; tfidf_weight := 0.25;
       position_weight := 0.25; use_embeddings := false;
       embedding_model := None |}
    ["a"; "b"; "c"]%string "a b c" (Some [0.9; 0.1]) None None true =
  summarize bare_env
    {| cnn_prob_weight := 0; textrank_weight := 0.5; tfidf_weight := 0.25;
       position_weight := 0.25; use_embeddings := false;
       embedding_model := None |}
    ["a"; "b"; "c"]%string "a b c" None None None true.
Proof.
  apply disabled_boundary_signal_ignores_probs. simpl. lra.
Defined.

Lemma nth_scale (c : R) (v : list R) (i : nat) :
  nth i (Np.scale c v) 0 = c * nth i v 0.
Proof.
  revert i. induction v as [| x v IH]; intros [| i]; simpl;
    try ring; try reflexivity. apply IH.
Qed.

Lemma nth_div_scalar (v : list R) (s : R) (i : nat) :
  nth i (Np.div_scalar v s) 0 = nth i v 0 / s.
Proof.
  revert i. induction v as [| x v IH]; intros [| i]; simpl;
    try (unfold Rdiv; ring); try reflexivity. apply IH.
Qed.

Lemma nth_zeros (n i : nat) : nth i (Np.zeros n) 0 = 0.
Proof.
  unfold Np.zeros. revert i. induction n as [| n IH]; intros [| i]; simpl;
    auto.
Qed.

Lemma nth_add (u v : list R) (i : nat) :
  length u = length v ->
  nth i (Np.add u v) 0 = nth i u 0 + nth i v 0.
Proof.
  revert v i. induction u as [| x u IH]; intros [| y v] i Hl;
    simpl in Hl; try discriminate.
  - destruct i; simpl; ring.
  - destruct i as [| i]; simpl; [reflexivity |]. apply IH. congruence.
Qed.

Lemma sum_add (u v : list R) :
  length u = length v -> Np.sum (Np.add u v) = Np.sum u + Np.sum v.
Proof.
  revert v. induction u as [| x u IH]; intros [| y v] Hl;
    simpl in Hl; try discriminate; simpl.
  - ring.
  - rewrite IH by congruence. ring.
Qed.

Lemma sum_zeros (n : nat) : Np.sum (Np.zeros n) = 0.
Proof.
  unfold Np.zeros. rewrite sum_repeat. ring.
Qed.

Lemma sum_textrank_scores (env : Backends) (sentences : list string) :
  (0 < length sentences)%nat ->
  Np.sum (_compute_textrank_scores env sentences) = 1.
Proof.
  intros Hn. unfold _compute_textrank_scores.
  destruct (HAS_NETWORKX env); simpl; [| now apply uniform_distribution].
  destruct (length sentences <? 2)%nat.
  - destruct (Nat.ltb_spec 0 (length sentences)); [| lia].
    now apply uniform_distribution.
  - now apply normalize_sum.
Qed.

Lemma sum_tfidf_scores (env : Backends) (sentences : list string) :
  (0 < length sentences)%nat ->
  Np.sum (_compute_tfidf_scores env sentences) = 1.
Proof.
  intros Hn. unfold _compute_tfidf_scores.
  destruct (HAS_SKLEARN env); simpl; [| now apply uniform_distribution].
  destruct (Nat.eqb_spec (length sentences) 0); [lia |].
  destruct (tfidf_cosine env sentences);
    [now apply normalize_sum | now apply uniform_distribution].
Qed.

Lemma sum_embedding_scores (env : Backends) (self : SentenceSummarizer)
    (sentences : list string) :
  (0 < length sentences)%nat ->
  Np.sum (_compute_embedding_scores env self sentences) = 1.
Proof.
  intros Hn. unfold _compute_embedding_scores.
  destruct (use_embeddings self); [| now apply sum_tfidf_scores].
  destruct (embedding_model self) as [m |]; [| now apply sum_tfidf_scores].
  destruct (embedding_cosine env m sentences);
    [now apply normalize_sum | now apply sum_tfidf_scores].
Qed.

Lemma sum_similarity_signal (env : Backends) (self : SentenceSummarizer)
    (sentences : list string) :
  (0 < length sentences)%nat ->
  Np.sum (similarity_signal env self sentences) = 1.
Proof.
  intros Hn. unfold similarity_signal.
  destruct (use_embeddings self);
    [now apply sum_embedding_scores | now apply sum_tfidf_scores].
Qed.

Lemma length_similarity_signal (env : Backends) (self : SentenceSummarizer)
    (sentences : list string) :
  backends_ok env ->
  length (similarity_signal env self sentences) = length sentences.
Proof.
  intros Henv. unfold similarity_signal.
  destruct (use_embeddings self);
    [now apply length_embedding_scores | now apply length_tfidf_scores].
Qed.

Lemma sum_position_scores (sentences : list string) :
  (0 < length sentences)%nat ->
  Np.sum (_compute_position_scores sentences) = 1.
Proof.
  intros Hn. now apply position_distribution.
Qed.

Lemma length_effective (n : nat) (c : R) (v : list R) :
  length v = n -> length (Np.scale c (effective n c v)) = n.
Proof.
  intros Hl. rewrite length_scale. unfold effective.
  destruct (Rlt_dec 0 c); [assumption | apply length_zeros].
Qed.

Lemma nth_effective (n : nat) (c : R) (v : list R) (i : nat) :
  nth i (Np.scale c (effective n c v)) 0 = Rmax 0 c * nth i v 0.
Proof.
  rewrite nth_scale. unfold effective.
  destruct (Rlt_dec 0 c) as [Hc | Hc].
  - rewrite Rmax_right by lra. reflexivity.
  - rewrite nth_zeros, Rmax_left by lra. ring.
Qed.

Lemma sum_effective (n : nat) (c : R) (v : list R) :
  Np.sum v = 1 -> Np.sum (Np.scale c (effective n c v)) = Rmax 0 c.
Proof.
  intros Hs. rewrite sum_scale. unfold effective.
  destruct (Rlt_dec 0 c) as [Hc | Hc].
  - rewrite Hs, Rmax_right by lra. ring.
  - rewrite sum_zeros, Rmax_left by lra. ring.
Qed.

Section WeightedAverage.

Variable env : Backends.
Hypothesis env_ok : backends_ok env.

Variable self : SentenceSummarizer.
Variable sentences : list string.
Variable text : string.
Variable cnn_probs : option (list R).

Hypothesis sentences_nonempty : (0 < length sentences)%nat.

Lemma combined_facts :
  let n := length sentences in
  let combined := combined_scores env self sentences text cnn_probs in
  length combined = n /\
  Np.sum combined =
  Rmax 0 (cnn_prob_weight self) + Rmax 0 (textrank_weight self) +
  Rmax 0 (tfidf_weight self) + Rmax 0 (position_weight self) /\
  forall i,
    nth i combined 0 =
    Rmax 0 (cnn_prob_weight self) *
      nth i (_compute_cnn_prob_scores sentences text cnn_probs) 0 +
    Rmax 0 (textrank_weight self) *
      nth i (_compute_textrank_scores env sentences) 0 +
    Rmax 0 (tfidf_weight self) *
      nth i (similarity_signal env self sentences) 0 +
    Rmax 0 (position_weight self) *
      nth i (_compute_position_scores sentences) 0.
Proof.
  intros n combined. unfold combined, combined_scores. fold n.
  pose proof (length_effective n (cnn_prob_weight self) _
    (length_cnn_prob_scores sentences text cnn_probs)) as L1.
  pose proof (length_effective n (textrank_weight self) _
    (length_textrank_scores env sentences)) as L2.
  pose proof (length_effective n (tfidf_weight self) _
    (length_similarity_signal env self sentences env_ok)) as L3.
  pose proof (length_effective n (position_weight self) _
    (length_position_scores sentences)) as L4.
  pose proof (length_add n _ _ L1 L2) as L12.
  pose proof (length_add n _ _ L12 L3) as L123.
  split; [now apply length_add | split].
  - rewrite !sum_add by congruence.
    rewrite !sum_effective; [reflexivity | | | |].
    + now apply sum_position_scores.
    + now apply sum_similarity_signal.
    + now apply sum_textrank_scores.
    + now apply sum_cnn_prob_scores.
  - intros i. rewrite !nth_add by congruence.
    now rewrite !nth_effective.
Qed.

Lemma weights_combined :
  fst (compute_sentence_weights env self sentences text cnn_probs) =
  Np.normalize (length sentences)
    (combined_scores env self sentences text cnn_probs).
Proof.
  now rewrite compute_sentence_weights_eq by assumption.
Qed.

End WeightedAverage.

(** X6: with libraries that return one score per sentence, and at least
    one positive coefficient, the combined weight of a sentence is the
    average of its signal scores weighted by the positive coefficients;
    coefficients that are not positive count as zero. *)
Theorem weights_weighted_average (env : Backends) (self : SentenceSummarizer)
    (sentences : list string) (text : string) (cnn_probs : option (list R))
    (i : nat) :
  backends_ok env ->
  (0 < length sentences)%nat ->
  let c := Rmax 0 (cnn_prob_weight self) in
  let t := Rmax 0 (textrank_weight self) in
  let f := Rmax 0 (tfidf_weight self) in
  let p := Rmax 0 (position_weight self) in
  0 < c + t + f + p ->
  nth i (fst (compute_sentence_weights env self sentences text cnn_probs)) 0 =
  (c * nth i (_compute_cnn_prob_scores sentences text cnn_probs) 0 +
   t * nth i (_compute_textrank_scores env sentences) 0 +
   f * nth i (similarity_signal env self sentences) 0 +
   p * nth i (_compute_position_scores sentences) 0) / (c + t + f + p).
Proof.
  intros Henv Hn c t f p Hpos.
  destruct (combined_facts env Henv self sentences text cnn_probs Hn)
    as (_ & Hsum & Hnth).
  rewrite weights_combined by assumption.
  rewrite normalize_pos by (rewrite Hsum; assumption).
  now rewrite nth_div_scalar, Hsum, Hnth.
Qed.

Lemma weights_weighted_average_witness :
  let s := ["a"; "b"]%string in
  nth 0 (fst (compute_sentence_weights bare_env default_summarizer s "a b"
                None)) 0 =
  (Rmax 0 0.25 * nth 0 (_compute_cnn_prob_scores s "a b" None) 0 +
   Rmax 0 0.35 * nth 0 (_compute_textrank_scores bare_env s) 0 +
   Rmax 0 0.30 * nth 0 (similarity_signal bare_env default_summarizer s) 0 +
   Rmax 0 0.10 * nth 0 (_compute_position_scores s) 0) /
  (Rmax 0 0.25 + Rmax 0 0.35 + Rmax 0 0.30 + Rmax 0 0.10).
Proof.
  apply (weights_weighted_average bare_env default_summarizer
           ["a"; "b"]%string "a b" None 0%nat).
  - exact bare_env_ok.
  - simpl. lia.
  - simpl. rewrite !Rmax_right by lra. lra.
Defined.

(** X7: a summarizer that came out of the constructor always has a
    positive coefficient, so on a non-empty input its component map is
    never empty and its weights are the weighted average, not the uniform
    fallback of an all-zero sum. *)
Theorem constructed_summarizer_has_signal (env : Backends) (c t f p : R)
    (b : bool) (name : string) (self : SentenceSummarizer)
    (ws : list warning) (sentences : list string) (text : string)
    (cnn_probs : option (list R)) :
  __init__ env c t f p b name = Ok (self, ws) ->
  backends_ok env ->
  (0 < length sentences)%nat ->
  snd (compute_sentence_weights env self sentences text cnn_probs) <> [] /\
  0 < Np.sum (combined_scores env self sentences text cnn_probs) /\
  fst (compute_sentence_weights env self sentences text cnn_probs) =
  Np.div_scalar (combined_scores env self sentences text cnn_probs)
    (Np.sum (combined_scores env self sentences text cnn_probs)).
Proof.
  intros Hinit Henv Hn.
  destruct (init_ok_total _ _ _ _ _ _ _ _ _ Hinit) as [_ Hsome].
  destruct (combined_facts env Henv self sentences text cnn_probs Hn)
    as (_ & Hsum & _).
  assert (Hpos : 0 < Np.sum (combined_scores env self sentences text
                               cnn_probs)).
  { rewrite Hsum.
    pose proof (Rmax_l 0 (cnn_prob_weight self)).
    pose proof (Rmax_l 0 (textrank_weight self)).
    pose proof (Rmax_l 0 (tfidf_weight self)).
    pose proof (Rmax_l 0 (position_weight self)).
    pose proof (Rmax_r 0 (cnn_prob_weight self)).
    pose proof (Rmax_r 0 (textrank_weight self)).
    pose proof (Rmax_r 0 (tfidf_weight self)).
    pose proof (Rmax_r 0 (position_weight self)).
    destruct Hsome as [? | [? | [? | ?]]]; lra. }
  split; [| split; [exact Hpos |]].
  - rewrite compute_sentence_weights_eq by assumption. cbn [snd].
    unfold recorded.
    destruct Hsome as [H | [H | [H | H]]];
      repeat match goal with
             | |- context [Rlt_dec ?x ?y] => destruct (Rlt_dec x y)
             end;
      try contradiction; cbn [app]; discriminate.
  - rewrite weights_combined by assumption. now apply normalize_pos.
Qed.

Lemma constructed_summarizer_has_signal_witness :
  let self :=
    {| cnn_prob_weight := 2 / (2 + 2 + 2 + 2);
       textrank_weight := 2 / (2 + 2 + 2 + 2);
       tfidf_weight := 2 / (2 + 2 + 2 + 2);
       position_weight := 2 / (2 + 2 + 2 + 2);
       use_embeddings := false; embedding_model := None |} in
  let s := ["a"; "b"]%string in
  snd (compute_sentence_weights bare_env self s "a b" None) <> [] /\
  0 < Np.sum (combined_scores bare_env self s "a b" None) /\
  fst (compute_sentence_weights bare_env self s "a b" None) =
  Np.div_scalar (combined_scores bare_env self s "a b" None)
    (Np.sum (combined_scores bare_env self s "a b" None)).
Proof.
  apply (constructed_summarizer_has_signal bare_env 2 2 2 2 true
           "all-MiniLM-L6-v2" _ _ ["a"; "b"]%string "a b" None
           init_bare_quarters).
  - exact bare_env_ok.
  - simpl. lia.
Defined.

(** ** Rankings, continued *)

Lemma strongly_sorted_unique {A : Type} (R : A -> A -> Prop)
    (l l' : list A) :
  (forall x y, R x y -> R y x -> False) ->
  StronglySorted R l -> StronglySorted R l' -> Permutation l l' -> l = l'.
Proof.
  intros Hasym Hl. revert l'.
  induction Hl as [| a l Hs IH Ha]; intros l' Hl' Hp.
  - apply Permutation_nil in Hp. now subst.
  - destruct Hl' as [| b l' Hs' Hb].
    + apply Permutation_sym, Permutation_nil in Hp. discriminate.
    + assert (Hab : a = b).
      { assert (Hin : In a (b :: l'))
          by (eapply Permutation_in; [exact Hp | now left]).
        destruct Hin as [-> | Hin]; [reflexivity |].
        assert (Hin' : In b (a :: l))
          by (eapply Permutation_in;
              [apply Permutation_sym; exact Hp | now left]).
        destruct Hin' as [-> | Hin']; [reflexivity |].
        rewrite Forall_forall in Ha, Hb.
        exfalso. apply (Hasym a b); auto. }
      subst b. f_equal. apply IH; [assumption |].
      eapply Permutation_cons_inv; exact Hp.
Qed.

Lemma strongly_sorted_app_inv {A : Type} (R : A -> A -> Prop)
    (l1 l2 : list A) :
  StronglySorted R (l1 ++ l2) ->
  forall x y, In x l1 -> In y l2 -> R x y.
Proof.
  induction l1 as [| a l1 IH]; intros Hs x y Hx Hy; [contradiction |].
  simpl in Hs. inversion Hs as [| ? ? Hs' Ha]; subst.
  destruct Hx as [-> | Hx].
  - rewrite Forall_forall in Ha. apply Ha, in_or_app. now right.
  - now apply IH.
Qed.

Lemma strongly_sorted_snoc {A : Type} (R : A -> A -> Prop) (l : list A)
    (a : A) :
  StronglySorted R l -> Forall (fun x => R x a) l ->
  StronglySorted R (l ++ [a]).
Proof.
  induction 1 as [| b l Hs IH Hb]; intros Ha; simpl.
  - repeat constructor.
  - inversion Ha as [| ? ? Hba Hla]; subst.
    constructor; [now apply IH |].
    apply Forall_app. split; [assumption | now constructor].
Qed.

Lemma strongly_sorted_rev {A : Type} (R : A -> A -> Prop) (l : list A) :
  StronglySorted R l -> StronglySorted (fun x y => R y x) (rev l).
Proof.
  induction 1 as [| a l Hs IH Ha]; simpl; [constructor |].
  apply strongly_sorted_snoc; [assumption |].
  apply Forall_forall. intros x Hx. apply in_rev in Hx.
  rewrite Forall_forall in Ha. now apply Ha.
Qed.

Lemma strongly_sorted_refine {A : Type} (R R' : A -> A -> Prop)
    (l : list A) :
  StronglySorted R l -> NoDup l ->
  (forall x y, In x l -> In y l -> x <> y -> R x y -> R' x y) ->
  StronglySorted R' l.
Proof.
  induction 1 as [| a l Hs IH Ha]; intros Hnd Himp; [constructor |].
  inversion Hnd as [| ? ? Hnin Hnd']; subst.
  constructor.
  - apply IH; [assumption |].
    intros x y Hx Hy. apply Himp; now right.
  - rewrite Forall_forall in *. intros y Hy.
    apply Himp; [now left | now right | | now apply Ha].
    intros ->. contradiction.
Qed.

Lemma strongly_sorted_impl {A : Type} (R R' : A -> A -> Prop) (l : list A) :
  (forall x y, R x y -> R' x y) -> StronglySorted R l -> StronglySorted R' l.
Proof.
  intros Himp. induction 1 as [| a l Hs IH Ha]; constructor; [assumption |].
  eapply Forall_impl; [| exact Ha]. intros y. apply Himp.
Qed.

Lemma ranks_before_asym (key : nat -> R) (i j : nat) :
  ranks_before key i j -> ranks_before key j i -> False.
Proof.
  unfold ranks_before. intros [H1 | [H1 H1']] [H2 | [H2 H2']]; try lra. lia.
Qed.

Lemma insert_asc_sorted (key : nat -> R) (i : nat) (l : list nat) :
  StronglySorted (fun a b => key a <= key b) l ->
  StronglySorted (fun a b => key a <= key b) (insert_asc key i l).
Proof.
  induction 1 as [| j l Hs IH Hj]; simpl.
  - repeat constructor.
  - destruct (Rlt_dec (key j) (key i)) as [Hlt | Hge].
    + constructor; [assumption |].
      rewrite insert_asc_perm. constructor; [lra | assumption].
    + constructor; [now constructor |].
      constructor; [lra |].
      eapply Forall_impl; [| exact Hj]. intros x Hx. simpl in Hx. lra.
Qed.

Lemma stable_argsort_sorted (w : list R) :
  StronglySorted (fun i j => nth i w 0 <= nth j w 0) (stable_argsort w).
Proof.
  unfold stable_argsort. generalize (seq 0 (length w)) as l.
  induction l as [| i l IH]; simpl; [constructor |].
  now apply (insert_asc_sorted (fun i => nth i w 0)).
Qed.

Lemma bare_env_argsort_sorted : argsort_sorted bare_env.
Proof.
  intros w. apply stable_argsort_sorted.
Qed.

Lemma py_take_prefix {A : Type} (k : Z) (l : list A) :
  exists m, py_take k l = firstn m l.
Proof.
  unfold py_take. destruct (0 <=? k)%Z; eexists; reflexivity.
Qed.

(** Whatever the bound, the indices kept by the slice come before the
    indices it drops. *)
Lemma py_take_splits {A : Type} (R : A -> A -> Prop) (k : Z) (l : list A) :
  StronglySorted R l ->
  forall x y, In x (py_take k l) -> In y l -> ~ In y (py_take k l) ->
  R x y.
Proof.
  intros Hs x y Hx Hy Hny.
  destruct (py_take_prefix k l) as [m Hm]. rewrite Hm in *.
  rewrite <- (firstn_skipn m l) in Hs, Hy.
  apply in_app_or in Hy. destruct Hy as [Hy | Hy]; [contradiction |].
  eapply strongly_sorted_app_inv; eassumption.
Qed.

Lemma in_sorted (i : nat) (l : list nat) : In i (sorted l) <-> In i l.
Proof.
  split; intros H.
  - eapply Permutation_in; [apply sorted_perm | exact H].
  - eapply Permutation_in; [apply Permutation_sym, sorted_perm | exact H].
Qed.

Lemma lt_asym_False (x y : nat) : (x < y)%nat -> (y < x)%nat -> False.
Proof. lia. Qed.

(** Sorting a strictly ascending list of indices returns it. *)
Lemma sorted_ascending_id (l : list nat) :
  StronglySorted lt l -> sorted l = l.
Proof.
  intros Hs. apply (strongly_sorted_unique lt);
    [exact lt_asym_False | | assumption | apply sorted_perm].
  apply sorted_nodup_strict; [apply sorted_sorted |].
  eapply Permutation_NoDup; [apply Permutation_sym, sorted_perm |].
  clear -Hs. induction Hs as [| a l Hs IH Ha]; constructor; auto.
  intros Hin. rewrite Forall_forall in Ha. specialize (Ha a Hin). lia.
Qed.

(** Sorting any arrangement of the indices below [n] gives them in
    order. *)
Lemma sorted_of_all (n : nat) (l : list nat) :
  Permutation l (seq 0 n) -> sorted l = seq 0 n.
Proof.
  intros Hp. apply (strongly_sorted_unique lt);
    [exact lt_asym_False | | apply seq_strict |].
  - apply sorted_strict.
    eapply Permutation_NoDup; [apply Permutation_sym; exact Hp |].
    apply seq_NoDup.
  - rewrite sorted_perm. exact Hp.
Qed.

Lemma map_nth_seq {A : Type} (l : list A) (d : A) :
  map (fun i => nth i l d) (seq 0 (length l)) = l.
Proof.
  apply (nth_ext _ _ d d).
  - now rewrite length_map, length_seq.
  - intros i Hi. rewrite length_map, length_seq in Hi.
    rewrite (nth_map_in _ _ _ 0%nat) by (now rewrite length_seq).
    now rewrite seq_nth.
Qed.

Lemma firstn_strict (m : nat) (l : list nat) :
  StronglySorted lt l -> StronglySorted lt (firstn m l).
Proof.
  intros Hs. revert m. induction Hs as [| a l Hs IH Ha]; intros [| m];
    simpl; try constructor.
  - apply IH.
  - rewrite Forall_forall in *. intros x Hx. apply Ha.
    now apply (incl_firstn m l).
Qed.

Lemma py_take_strict (k : Z) (l : list nat) :
  StronglySorted lt l -> StronglySorted lt (py_take k l).
Proof.
  intros Hs. destruct (py_take_prefix k l) as [m ->].
  now apply firstn_strict.
Qed.

Lemma py_take_map {A B : Type} (f : A -> B) (k : Z) (l : list A) :
  py_take k (map f l) = map f (py_take k l).
Proof.
  unfold py_take. rewrite length_map.
  destruct (0 <=? k)%Z; apply firstn_map.
Qed.

Lemma py_take_all {A : Type} (k : Z) (l : list A) :
  (Z.of_nat (length l) <= k)%Z -> py_take k l = l.
Proof.
  intros Hk. unfold py_take.
  destruct (Z.leb_spec 0 k); [| lia].
  apply firstn_all2. lia.
Qed.

(** ** Selection, continued *)

(** X8: with [preserve_order] true the summary is made of the highest
    ranked sentences.  A selected sentence never weighs less than a
    sentence left out, and when the two weigh the same the selected one
    comes earlier in the document. *)
Theorem summarize_selects_heaviest (env : Backends)
    (self : SentenceSummarizer) (sentences : list string) (text : string)
    (cnn_probs : option (list R)) (compression : option R)
    (top_k : option Z) :
  (0 < length sentences)%nat ->
  let n := length sentences in
  let weights :=
    fst (compute_sentence_weights env self sentences text cnn_probs) in
  let chosen :=
    selected_indices env n weights (n_select n compression top_k) true in
  summary_sentences
    (summarize env self sentences text cnn_probs compression top_k true) =
  map (fun i => nth i sentences EmptyString) chosen /\
  forall i j, In i chosen -> (j < n)%nat -> ~ In j chosen ->
    nth j weights 0 < nth i weights 0 \/
    (nth i weights 0 = nth j weights 0 /\ (i < j)%nat).
Proof.
  intros Hn n weights chosen.
  split; [now rewrite summarize_nonempty by assumption |].
  intros i j Hi Hj Hnj. unfold chosen, selected_indices in Hi, Hnj.
  rewrite in_sorted in Hi, Hnj.
  apply (py_take_splits (ranks_before (fun i => nth i weights 0))
           (n_select n compression top_k)
           (ranked_indices env n weights true));
    [apply ranked_indices_preserve_order | assumption | | assumption].
  unfold ranked_indices.
  eapply Permutation_in;
    [apply Permutation_sym, sort_by_key_reverse_perm |].
  apply in_seq. lia.
Qed.

Lemma summarize_selects_heaviest_witness :
  let s := ["a"; "b"; "c"]%string in
  let weights :=
    fst (compute_sentence_weights bare_env default_summarizer s "a b c"
           None) in
  let chosen := selected_indices bare_env 3 weights (n_select 3 None None)
                  true in
  summary_sentences
    (summarize bare_env default_summarizer s "a b c" None None None true) =
  map (fun i => nth i s EmptyString) chosen /\
  forall i j, In i chosen -> (j < 3)%nat -> ~ In j chosen ->
    nth j weights 0 < nth i weights 0 \/
    (nth i weights 0 = nth j weights 0 /\ (i < j)%nat).
Proof.
  apply (summarize_selects_heaviest bare_env default_summarizer
           ["a"; "b"; "c"]%string "a b c" None None None).
  simpl. lia.
Defined.

Section Modes.

Variable env : Backends.
Hypothesis env_ok : backends_ok env.
Hypothesis env_argsort : argsort_ok env.
Hypothesis env_sorted : argsort_sorted env.

Lemma ranked_indices_descending (weights : list R) (preserve_order : bool) :
  StronglySorted (fun i j => nth j weights 0 <= nth i weights 0)
    (ranked_indices env (length weights) weights preserve_order).
Proof.
  destruct preserve_order.
  - eapply strongly_sorted_impl;
      [| apply (ranked_indices_preserve_order env (length weights) weights)].
    intros i j [H | [H _]]; simpl in *; lra.
  - unfold ranked_indices.
    apply (strongly_sorted_rev (fun i j => nth i weights 0 <= nth j weights 0)).
    apply env_sorted.
Qed.

(** Without ties the two modes rank the indices alike. *)
Lemma ranked_indices_modes_agree (weights : list R) :
  distinct_weights (length weights) weights ->
  ranked_indices env (length weights) weights false =
  ranked_indices env (length weights) weights true.
Proof.
  intros Hd.
  apply (strongly_sorted_unique (ranks_before (fun i => nth i weights 0)));
    [apply ranks_before_asym | | apply ranked_indices_preserve_order |].
  - pose proof (ranked_indices_perm env env_argsort weights false) as Hp.
    apply (strongly_sorted_refine
             (fun i j => nth j weights 0 <= nth i weights 0));
      [apply ranked_indices_descending | |].
    + eapply Permutation_NoDup;
        [apply Permutation_sym; exact Hp | apply seq_NoDup].
    + intros i j Hi Hj Hij Hle. left.
      eapply Permutation_in in Hi; [| exact Hp].
      eapply Permutation_in in Hj; [| exact Hp].
      apply in_seq in Hi, Hj.
      assert (nth i weights 0 <> nth j weights 0)
        by (apply Hd; lia).
      lra.
  - rewrite !ranked_indices_perm by assumption. reflexivity.
Qed.

Lemma summarize_all_aux (n : nat) (weights : list R) (k : Z)
    (preserve_order : bool) :
  length weights = n -> (Z.of_nat n <= k)%Z ->
  selected_indices env n weights k preserve_order = seq 0 n.
Proof.
  intros Hl Hk. subst n. unfold selected_indices.
  pose proof (ranked_indices_perm env env_argsort weights preserve_order)
    as Hp.
  rewrite py_take_all
    by (rewrite (Permutation_length Hp), length_seq; assumption).
  now apply sorted_of_all.
Qed.

End Modes.

(** X9: in either mode, with an [argsort] that sorts, no selected
    sentence weighs less than a sentence left out. *)
Theorem summarize_selected_outweigh_rejected (env : Backends)
    (self : SentenceSummarizer) (sentences : list string) (text : string)
    (cnn_probs : option (list R)) (compression : option R)
    (top_k : option Z) (preserve_order : bool) :
  backends_ok env -> argsort_ok env -> argsort_sorted env ->
  (0 < length sentences)%nat ->
  let n := length sentences in
  let weights :=
    fst (compute_sentence_weights env self sentences text cnn_probs) in
  let chosen :=
    selected_indices env n weights (n_select n compression top_k)
      preserve_order in
  summary_sentences
    (summarize env self sentences text cnn_probs compression top_k
       preserve_order) =
  map (fun i => nth i sentences EmptyString) chosen /\
  forall i j, In i chosen -> (j < n)%nat -> ~ In j chosen ->
    nth j weights 0 <= nth i weights 0.
Proof.
  intros Henv Hperm Hsorted Hn n weights chosen.
  split; [now rewrite summarize_nonempty by assumption |].
  assert (Hlen : length weights = n)
    by (now apply length_compute_sentence_weights).
  intros i j Hi Hj Hnj. unfold chosen, selected_indices in Hi, Hnj.
  remember (n_select n compression top_k) as k eqn:Ek. clear Ek.
  rewrite in_sorted in Hi, Hnj. rewrite <- Hlen in Hi, Hnj.
  apply (py_take_splits (fun i j => nth j weights 0 <= nth i weights 0) k
           (ranked_indices env (length weights) weights preserve_order));
    [now apply ranked_indices_descending | assumption | | assumption].
  eapply Permutation_in;
    [apply Permutation_sym, ranked_indices_perm; assumption |].
  apply in_seq. lia.
Qed.

Lemma summarize_selected_outweigh_rejected_witness :
  let s := ["a"; "b"; "c"]%string in
  let weights :=
    fst (compute_sentence_weights bare_env default_summarizer s "a b c"
           None) in
  let chosen :=
    selected_indices bare_env 3 weights (n_select 3 None (Some 1%Z)) false in
  summary_sentences
    (summarize bare_env default_summarizer s "a b c" None None (Some 1%Z)
       false) =
  map (fun i => nth i s EmptyString) chosen /\
  forall i j, In i chosen -> (j < 3)%nat -> ~ In j chosen ->
    nth j weights 0 <= nth i weights 0.
Proof.
  apply (summarize_selected_outweigh_rejected bare_env default_summarizer
           ["a"; "b"; "c"]%string "a b c" None None (Some 1%Z) false).
  - exact bare_env_ok.
  - exact bare_env_argsort_ok.
  - exact bare_env_argsort_sorted.
  - simpl. lia.
Defined.

(** X10: when no two sentences have the same combined weight, and
    [argsort] sorts, [preserve_order] makes no difference: both modes
    return the same result. *)
Theorem summarize_modes_agree_without_ties (env : Backends)
    (self : SentenceSummarizer) (sentences : list string) (text : string)
    (cnn_probs : option (list R)) (compression : option R)
    (top_k : option Z) :
  backends_ok env -> argsort_ok env -> argsort_sorted env ->
  distinct_weights (length sentences)
    (fst (compute_sentence_weights env self sentences text cnn_probs)) ->
  summarize env self sentences text cnn_probs compression top_k false =
  summarize env self sentences text cnn_probs compression top_k true.
Proof.
  intros Henv Hperm Hsorted Hd.
  destruct sentences as [| s sentences]; [reflexivity |].
  rewrite !summarize_nonempty by (simpl; lia). cbv zeta.
  pose proof (length_compute_sentence_weights env Henv self (s :: sentences)
                text cnn_probs) as Hlen.
  unfold selected_indices. rewrite <- Hlen in *.
  now rewrite ranked_indices_modes_agree.
Qed.

Lemma summarize_all_sentences (env : Backends) (self : SentenceSummarizer)
    (sentences : list string) (text : string) (cnn_probs : option (list R))
    (compression : option R) (top_k : option Z) (preserve_order : bool) :
  backends_ok env -> argsort_ok env ->
  (Z.of_nat (length sentences) <=
   n_select (length sentences) compression top_k)%Z ->
  summary_sentences
    (summarize env self sentences text cnn_probs compression top_k
       preserve_order) = sentences.
Proof.
  intros Henv Hperm Hk.
  destruct sentences as [| s sentences]; [reflexivity |].
  rewrite summarize_nonempty by (simpl; lia).
  unfold summary_sentences. cbn [fst].
  rewrite summarize_all_aux;
    [apply map_nth_seq | assumption | | assumption].
  now apply length_compute_sentence_weights.
Qed.

(** X11: asking for at least as many sentences as there are returns the
    whole document, in its original order, in either mode. *)
Theorem summarize_everything (env : Backends) (self : SentenceSummarizer)
    (sentences : list string) (text : string) (cnn_probs : option (list R))
    (compression : option R) (top_k : option Z) (preserve_order : bool) :
  backends_ok env -> argsort_ok env ->
  (Z.of_nat (length sentences) <=
   n_select (length sentences) compression top_k)%Z ->
  summary_sentences
    (summarize env self sentences text cnn_probs compression top_k
       preserve_order) = sentences.
Proof.
  apply summarize_all_sentences.
Qed.

Lemma summarize_everything_witness :
  summary_sentences
    (summarize bare_env default_summarizer ["a"; "b"; "c"]%string "a b c"
       None None (Some 5%Z) false) = ["a"; "b"; "c"]%string.
Proof.
  apply (summarize_everything bare_env default_summarizer
           ["a"; "b"; "c"]%string "a b c" None None (Some 5%Z) false).
  - exact bare_env_ok.
  - exact bare_env_argsort_ok.
  - simpl. lia.
Defined.

Lemma py_int_nonpos (x : R) : x <= 0 -> (py_int x <= 0)%Z.
Proof.
  intros Hx. unfold py_int. destruct (Rle_dec 0 x) as [H0 | _].
  - assert (x = 0) by lra. subst x. rewrite (ZfloorZ 0). lia.
  - unfold Zceil. assert (0 <= Zfloor (- x))%Z; [| lia].
    apply Zfloor_lub. simpl. lra.
Qed.

(** X12: with [top_k >= 1] the summary has [min top_k n] sentences, for
    [n] sentences in the input, whatever [compression] is. *)
Theorem summarize_count_top_k (env : Backends) (self : SentenceSummarizer)
    (sentences : list string) (text : string) (cnn_probs : option (list R))
    (compression : option R) (k : Z) (preserve_order : bool) :
  backends_ok env -> argsort_ok env ->
  (0 < length sentences)%nat -> (1 <= k)%Z ->
  Z.of_nat
    (length (summary_sentences
               (summarize env self sentences text cnn_probs compression
                  (Some k) preserve_order))) =
  Z.min k (Z.of_nat (length sentences)).
Proof.
  intros Henv Hperm Hn Hk.
  rewrite (length_summarize env Henv Hperm) by assumption.
  rewrite n_select_top_k.
  destruct (Z.leb_spec 0 (Z.min k (Z.of_nat (length sentences)))); lia.
Qed.

Lemma summarize_count_top_k_witness :
  Z.of_nat
    (length (summary_sentences
               (summarize bare_env default_summarizer
                  ["a"; "b"; "c"]%string "a b c" None (Some 0.9)
                  (Some 2%Z) true))) = Z.min 2 (Z.of_nat 3).
Proof.
  apply (summarize_count_top_k bare_env default_summarizer
           ["a"; "b"; "c"]%string "a b c" None (Some 0.9) 2%Z true).
  - exact bare_env_ok.
  - exact bare_env_argsort_ok.
  - simpl. lia.
  - lia.
Defined.

(** X13: with no [top_k] and a compression ratio [r], the summary of [n]
    sentences has between 1 and [n] sentences when [0 < r <= 1], exactly
    one sentence when [r <= 0], and all [n] sentences when [r >= 1]. *)
Theorem summarize_count_compression_range (env : Backends)
    (self : SentenceSummarizer) (sentences : list string) (text : string)
    (cnn_probs : option (list R)) (r : R) (preserve_order : bool) :
  backends_ok env -> argsort_ok env ->
  (0 < length sentences)%nat ->
  let n := length sentences in
  let count :=
    length (summary_sentences
              (summarize env self sentences text cnn_probs (Some r) None
                 preserve_order)) in
  (0 < r <= 1 -> (1 <= count <= n)%nat) /\
  (r <= 0 -> count = 1%nat) /\
  (1 <= r -> count = n).
Proof.
  intros Henv Hperm Hn n count. unfold count.
  rewrite (length_summarize env Henv Hperm) by assumption. fold n.
  pose proof (pos_INR n) as Hn0.
  assert (Hn1 : 1 <= INR n) by (apply (le_INR 1); lia).
  split; [| split].
  - intros Hr. pose proof (n_select_compression_bound n r Hn Hr) as Hb.
    destruct (Z.leb_spec 0 (n_select n (Some r) None)); lia.
  - intros Hr. unfold n_select.
    assert (py_int (INR n * r) <= 0)%Z by (apply py_int_nonpos; nra).
    destruct (Z.leb_spec 0 (Z.max 1 (py_int (INR n * r)))); lia.
  - intros Hr. unfold n_select.
    rewrite py_int_nonneg by nra.
    assert (Z.of_nat n <= Zfloor (INR n * r))%Z.
    { apply Zfloor_lub. rewrite <- INR_IZR_INZ. nra. }
    destruct (Z.leb_spec 0 (Z.max 1 (Zfloor (INR n * r)))); lia.
Qed.

Lemma summarize_count_compression_range_witness :
  let count r :=
    length (summary_sentences
              (summarize bare_env default_summarizer
                 ["a"; "b"; "c"; "d"]%string "a b c d" None (Some r) None
                 true)) in
  (1 <= count 0.5%R <= 4)%nat /\
  count (-1) = 1%nat /\
  count 2 = 4%nat.
Proof.
  cbv zeta.
  split; [| split].
  - apply (summarize_count_compression_range bare_env default_summarizer
             ["a"; "b"; "c"; "d"]%string "a b c d" None 0.5 true
             bare_env_ok bare_env_argsort_ok); [simpl; lia | lra].
  - apply (summarize_count_compression_range bare_env default_summarizer
             ["a"; "b"; "c"; "d"]%string "a b c d" None (-1) true
             bare_env_ok bare_env_argsort_ok); [simpl; lia | lra].
  - apply (summarize_count_compression_range bare_env default_summarizer
             ["a"; "b"; "c"; "d"]%string "a b c d" None 2 true
             bare_env_ok bare_env_argsort_ok); [simpl; lia | lra].
Defined.

(** X14: with neither [top_k] nor [compression], the summary of [n]
    sentences has [min n (max 2 (3 n / 10))] sentences, the quotient being
    the integer one: the whole input up to two sentences, two sentences up
    to nine, three from ten on. *)
Theorem summarize_count_default (env : Backends) (self : SentenceSummarizer)
    (sentences : list string) (text : string) (cnn_probs : option (list R))
    (preserve_order : bool) :
  backends_ok env -> argsort_ok env ->
  (0 < length sentences)%nat ->
  Z.of_nat
    (length (summary_sentences
               (summarize env self sentences text cnn_probs None None
                  preserve_order))) =
  Z.min (Z.of_nat (length sentences))
    (Z.max 2 (3 * Z.of_nat (length sentences) / 10)).
Proof.
  intros Henv Hperm Hn.
  rewrite (length_summarize env Henv Hperm) by assumption.
  rewrite n_select_default.
  destruct (Z.leb_spec 0 (Z.max 2 (3 * Z.of_nat (length sentences) / 10)));
    lia.
Qed.

Lemma summarize_count_default_witness :
  Z.of_nat
    (length (summary_sentences
               (summarize bare_env default_summarizer
                  ["a"; "b"; "c"; "d"]%string "a b c d" None None None
                  true))) =
  Z.min (Z.of_nat 4) (Z.max 2 (3 * Z.of_nat 4 / 10)).
Proof.
  apply (summarize_count_default bare_env default_summarizer
           ["a"; "b"; "c"; "d"]%string "a b c d" None true).
  - exact bare_env_ok.
  - exact bare_env_argsort_ok.
  - simpl. lia.
Defined.

Lemma py_take_mono {A : Type} (k k' : Z) (l : list A) :
  (0 <= k <= k')%Z -> incl (py_take k l) (py_take k' l).
Proof.
  intros Hk. unfold py_take.
  destruct (Z.leb_spec 0 k); [| lia]. destruct (Z.leb_spec 0 k'); [| lia].
  replace (firstn (Z.to_nat k) l)
    with (firstn (Z.to_nat k) (firstn (Z.to_nat k') l)).
  - apply incl_firstn.
  - rewrite firstn_firstn. f_equal. lia.
Qed.

(** X15: a larger [top_k] only adds sentences.  For [0 <= k <= k'] every
    index selected with [top_k = k] is selected with [top_k = k'], and so
    is every sentence. *)
Theorem summarize_top_k_monotone (env : Backends) (self : SentenceSummarizer)
    (sentences : list string) (text : string) (cnn_probs : option (list R))
    (compression : option R) (k k' : Z) (preserve_order : bool) :
  (0 <= k <= k')%Z ->
  let n := length sentences in
  let weights :=
    fst (compute_sentence_weights env self sentences text cnn_probs) in
  incl (selected_indices env n weights (n_select n compression (Some k))
          preserve_order)
       (selected_indices env n weights (n_select n compression (Some k'))
          preserve_order) /\
  incl (summary_sentences
          (summarize env self sentences text cnn_probs compression (Some k)
             preserve_order))
       (summary_sentences
          (summarize env self sentences text cnn_probs compression (Some k')
             preserve_order)).
Proof.
  intros Hk n weights.
  assert (Hidx : incl
            (selected_indices env n weights (n_select n compression (Some k))
               preserve_order)
            (selected_indices env n weights
               (n_select n compression (Some k')) preserve_order)).
  { intros i Hi. unfold selected_indices in *. rewrite in_sorted in *.
    revert Hi. apply py_take_mono. rewrite !n_select_top_k. lia. }
  split; [exact Hidx |].
  destruct (Nat.eq_dec (length sentences) 0) as [H0 | H0].
  { unfold summarize. rewrite H0. simpl. apply incl_refl. }
  rewrite !summarize_nonempty by lia.
  unfold summary_sentences. cbn [fst].
  intros x Hx. apply in_map_iff in Hx. destruct Hx as (i & <- & Hi).
  apply in_map_iff. exists i. split; [reflexivity | now apply Hidx].
Qed.

Lemma summarize_top_k_monotone_witness :
  let s := ["a"; "b"; "c"]%string in
  let weights :=
    fst (compute_sentence_weights bare_env default_summarizer s "a b c"
           None) in
  incl (selected_indices bare_env 3 weights (n_select 3 None (Some 1%Z))
          false)
       (selected_indices bare_env 3 weights (n_select 3 None (Some 2%Z))
          false) /\
  incl (summary_sentences
          (summarize bare_env default_summarizer s "a b c" None None
             (Some 1%Z) false))
       (summary_sentences
          (summarize bare_env default_summarizer s "a b c" None None
             (Some 2%Z) false)).
Proof.
  apply (summarize_top_k_monotone bare_env default_summarizer
           ["a"; "b"; "c"]%string "a b c" None None 1%Z 2%Z false).
  lia.
Defined.

(** ** The position signal, continued *)

Lemma position_scores_nth (sentences : list string) (i : nat) :
  (i < length sentences)%nat ->
  nth i (_compute_position_scores sentences) 0 =
  exp (- 0.1 * INR i) / Np.sum (position_raw (length sentences)).
Proof.
  intros Hi. rewrite position_scores_eq by lia.
  rewrite nth_div_scalar. now rewrite nth_position_raw.
Qed.

Lemma position_scores_strict (sentences : list string) (i j : nat) :
  (i < j < length sentences)%nat ->
  nth j (_compute_position_scores sentences) 0 <
  nth i (_compute_position_scores sentences) 0.
Proof.
  intros [Hij Hj]. rewrite !position_scores_nth by lia.
  pose proof (sum_position_raw_pos (length sentences) ltac:(lia)) as Hpos.
  apply Rmult_lt_compat_r; [now apply Rinv_0_lt_compat |].
  apply exp_increasing. apply lt_INR in Hij. lra.
Qed.

(** ** Lead selection *)

Lemma position_only_weights (env : Backends) (self : SentenceSummarizer)
    (sentences : list string) (text : string) (cnn_probs : option (list R))
    (i : nat) :
  backends_ok env ->
  (0 < length sentences)%nat ->
  cnn_prob_weight self <= 0 -> textrank_weight self <= 0 ->
  tfidf_weight self <= 0 -> 0 < position_weight self ->
  nth i (fst (compute_sentence_weights env self sentences text cnn_probs)) 0 =
  nth i (_compute_position_scores sentences) 0.
Proof.
  intros Henv Hn Hc Ht Hf Hp.
  destruct (combined_facts env Henv self sentences text cnn_probs Hn)
    as (_ & Hsum & Hnth).
  rewrite !Rmax_left in Hsum, Hnth by assumption.
  rewrite Rmax_right in Hsum, Hnth by lra.
  rewrite weights_combined by assumption.
  rewrite normalize_pos by (rewrite Hsum; lra).
  rewrite nth_div_scalar, Hsum, Hnth. field. lra.
Qed.

(** With [preserve_order] true, weights that never increase along the
    document are ranked in document order: a tie goes to the earlier
    sentence. *)
Lemma nonincreasing_ranking (env : Backends) (n : nat) (weights : list R) :
  (forall i j, (i < j < n)%nat -> nth j weights 0 <= nth i weights 0) ->
  ranked_indices env n weights true = seq 0 n.
Proof.
  intros Hdec.
  apply (strongly_sorted_unique (ranks_before (fun i => nth i weights 0)));
    [apply ranks_before_asym | apply ranked_indices_preserve_order | |
     apply sort_by_key_reverse_perm].
  apply (strongly_sorted_refine lt); [apply seq_strict | apply seq_NoDup |].
  intros i j Hi Hj _ Hij. apply in_seq in Hi, Hj.
  assert (Hle : nth j weights 0 <= nth i weights 0) by (apply Hdec; lia).
  unfold ranks_before. destruct Hle as [Hlt | Heq]; [now left |].
  right. split; [now symmetry | assumption].
Qed.

Lemma firstn_min_length {A : Type} (k : nat) (l : list A) :
  firstn (Nat.min k (length l)) l = firstn k l.
Proof.
  destruct (Nat.le_ge_cases k (length l)) as [H | H].
  - now rewrite Nat.min_l.
  - rewrite Nat.min_r by assumption.
    now rewrite firstn_all, firstn_all2.
Qed.

(** X17: a summarizer whose only positive coefficient is the position
    coefficient, asked with [preserve_order] true for [top_k = k >= 0]
    sentences, returns the first [k] sentences of the input (all of them
    when there are fewer). *)
Theorem position_only_selects_lead (env : Backends)
    (self : SentenceSummarizer) (sentences : list string) (text : string)
    (cnn_probs : option (list R)) (compression : option R) (k : Z) :
  backends_ok env ->
  cnn_prob_weight self <= 0 -> textrank_weight self <= 0 ->
  tfidf_weight self <= 0 -> 0 < position_weight self ->
  (0 <= k)%Z ->
  summary_sentences
    (summarize env self sentences text cnn_probs compression (Some k) true) =
  firstn (Z.to_nat k) sentences.
Proof.
  intros Henv Hc Ht Hf Hp Hk.
  destruct (Nat.eq_dec (length sentences) 0) as [H0 | H0].
  { apply length_zero_iff_nil in H0. subst sentences.
    now rewrite firstn_nil. }
  rewrite summarize_nonempty by lia.
  unfold summary_sentences, selected_indices. cbn [fst].
  rewrite nonincreasing_ranking.
  - rewrite sorted_ascending_id by (apply py_take_strict, seq_strict).
    rewrite n_select_top_k. unfold py_take.
    destruct (Z.leb_spec 0 (Z.min k (Z.of_nat (length sentences))));
      [| lia].
    rewrite <- firstn_map, map_nth_seq.
    rewrite <- (firstn_min_length (Z.to_nat k)). f_equal. lia.
  - intros i j Hij.
    rewrite !(position_only_weights env) by (assumption || lia).
    left. now apply position_scores_strict.
Qed.

Lemma position_only_selects_lead_witness :
  summary_sentences
    (summarize bare_env
       {| cnn_prob_weight := 0; textrank_weight := 0; tfidf_weight := 0;
          position_weight := 1; use_embeddings := false;
          embedding_model := None |}
       ["A cat sat."; "A dog ran."; "The cat and dog played.";
        "It was sunny."]%string "text" None None (Some 2%Z) true) =
  firstn (Z.to_nat 2)
    ["A cat sat."; "A dog ran."; "The cat and dog played.";
     "It was sunny."]%string.
Proof.
  apply (position_only_selects_lead bare_env
           {| cnn_prob_weight := 0; textrank_weight := 0; tfidf_weight := 0;
              position_weight := 1; use_embeddings := false;
              embedding_model := None |}
           ["A cat sat."; "A dog ran."; "The cat and dog played.";
            "It was sunny."]%string "text" None None 2%Z bare_env_ok);
    simpl; (lra || lia).
Defined.

Lemma summarize_modes_agree_without_ties_witness :
  let self :=
    {| cnn_prob_weight := 0; textrank_weight := 0; tfidf_weight := 0;
       position_weight := 1; use_embeddings := false;
       embedding_model := None |} in
  summarize bare_env self ["a"; "b"; "c"]%string "a b c" None None
    (Some 2%Z) false =
  summarize bare_env self ["a"; "b"; "c"]%string "a b c" None None
    (Some 2%Z) true.
Proof.
  apply (summarize_modes_agree_without_ties bare_env _
           ["a"; "b"; "c"]%string "a b c" None None (Some 2%Z)
           bare_env_ok bare_env_argsort_ok bare_env_argsort_sorted).
  intros i j Hi Hj Hij.
  rewrite !(position_only_weights bare_env _ _ _ _ _ bare_env_ok)
    by (simpl; (lra || lia)).
  destruct (Nat.lt_total i j) as [Hlt | [Heq | Hgt]]; [| contradiction |].
  - pose proof (position_scores_strict ["a"; "b"; "c"]%string i j
                  ltac:(simpl in *; lia)). lra.
  - pose proof (position_scores_strict ["a"; "b"; "c"]%string j i
                  ltac:(simpl in *; lia)). lra.
Defined.

(** ** Signal vectors for arbitrary boundary probabilities *)

Lemma component_vectors (env : Backends) (self : SentenceSummarizer)
    (sentences : list string) (text : string) (cnn_probs : option (list R))
    (name : string) (v : list R) :
  (0 < length sentences)%nat ->
  In (name, v)
     (snd (compute_sentence_weights env self sentences text cnn_probs)) ->
  v = _compute_cnn_prob_scores sentences text cnn_probs \/
  v = _compute_textrank_scores env sentences \/
  v = similarity_signal env self sentences \/
  v = _compute_position_scores sentences.
Proof.
  intros Hn. rewrite compute_sentence_weights_eq by assumption. cbn [snd].
  unfold recorded. intros Hin.
  repeat (apply in_app_or in Hin; destruct Hin as [Hin | Hin]);
    match type of Hin with
    | In _ (if ?c then _ else _) => destruct c
    end; cbn [In] in Hin;
    try contradiction; destruct Hin as [Hin | []];
    injection Hin as _ <-; auto.
Qed.

Lemma component_length_sum (env : Backends) (self : SentenceSummarizer)
    (sentences : list string) (text : string) (cnn_probs : option (list R))
    (name : string) (v : list R) :
  backends_ok env -> (0 < length sentences)%nat ->
  In (name, v)
     (snd (compute_sentence_weights env self sentences text cnn_probs)) ->
  length v = length sentences /\ Np.sum v = 1.
Proof.
  intros Henv Hn Hin.
  destruct (component_vectors _ _ _ _ _ _ _ Hn Hin) as [-> | [-> | [-> | ->]]].
  - split; [apply length_cnn_prob_scores | now apply sum_cnn_prob_scores].
  - split; [now apply length_textrank_scores | now apply sum_textrank_scores].
  - split;
      [now apply length_similarity_signal | now apply sum_similarity_signal].
  - split; [apply length_position_scores | now apply sum_position_scores].
Qed.

(** X18: whatever [cnn_probs] holds, negative values included, on a
    non-empty input the combined vector and each recorded signal vector
    have one entry per sentence and sum to exactly 1; only the sign of the
    entries depends on the probabilities. *)
Theorem weights_sum_to_one_for_any_probs (env : Backends)
    (self : SentenceSummarizer) (sentences : list string) (text : string)
    (cnn_probs : option (list R)) :
  backends_ok env -> (0 < length sentences)%nat ->
  let result :=
    compute_sentence_weights env self sentences text cnn_probs in
  length (fst result) = length sentences /\
  Np.sum (fst result) = 1 /\
  forall name v, In (name, v) (snd result) ->
    length v = length sentences /\ Np.sum v = 1.
Proof.
  intros Henv Hn result. unfold result.
  split; [now apply length_compute_sentence_weights | split].
  - rewrite weights_combined by assumption. now apply normalize_sum.
  - intros name v. now apply component_length_sum.
Qed.

Lemma weights_sum_to_one_for_any_probs_witness :
  let result :=
    compute_sentence_weights bare_env default_summarizer ["a"; "b"]%string
      "a b" (Some [-1; 3]) in
  length (fst result) = 2%nat /\
  Np.sum (fst result) = 1 /\
  forall name v, In (name, v) (snd result) ->
    length v = 2%nat /\ Np.sum v = 1.
Proof.
  apply (weights_sum_to_one_for_any_probs bare_env default_summarizer
           ["a"; "b"]%string "a b" (Some [-1; 3])).
  - exact bare_env_ok.
  - simpl. lia.
Defined.

Lemma singleton_sum_one (v : list R) :
  length v = 1%nat -> Np.sum v = 1 -> v = [1].
Proof.
  destruct v as [| x [| y v]]; simpl; try discriminate.
  intros _ Hs. f_equal. lra.
Qed.

(** X19: a one-sentence document.  Whenever [top_k] is absent or at least
    1, [summarize] returns that sentence, the weight vector [1], and a
    component map in which every recorded signal is [1]. *)
Theorem summarize_single_sentence (env : Backends)
    (self : SentenceSummarizer) (s : string) (text : string)
    (cnn_probs : option (list R)) (compression : option R)
    (top_k : option Z) (preserve_order : bool) :
  backends_ok env -> argsort_ok env ->
  (forall k, top_k = Some k -> (1 <= k)%Z) ->
  let r := summarize env self [s] text cnn_probs compression top_k
             preserve_order in
  summary_sentences r = [s] /\
  summary_weights r = [1] /\
  forall name v, In (name, v) (summary_components r) -> v = [1].
Proof.
  intros Henv Hperm Hk r. unfold r. split; [| split].
  - apply summarize_all_sentences; try assumption.
    unfold n_select. simpl length. destruct top_k as [k |].
    + specialize (Hk k eq_refl). lia.
    + destruct compression; lia.
  - rewrite summarize_nonempty by (simpl; lia).
    unfold summary_weights. cbn [fst snd].
    apply singleton_sum_one.
    + now rewrite length_compute_sentence_weights.
    + rewrite weights_combined by (simpl; lia).
      apply normalize_sum. simpl. lia.
  - rewrite summarize_nonempty by (simpl; lia).
    unfold summary_components. cbn [snd]. intros name v Hin.
    destruct (component_length_sum env self [s] text cnn_probs name v Henv
                ltac:(simpl; lia) Hin) as [Hl Hs].
    now apply singleton_sum_one.
Qed.

Lemma summarize_single_sentence_witness :
  let r := summarize bare_env default_summarizer ["Only one."%string]
             "Only one." (Some [0.3; 0.4]) None None false in
  summary_sentences r = ["Only one."%string] /\
  summary_weights r = [1] /\
  forall name v, In (name, v) (summary_components r) -> v = [1].
Proof.
  apply (summarize_single_sentence bare_env default_summarizer "Only one."
           "Only one." (Some [0.3; 0.4]) None None false).
  - exact bare_env_ok.
  - exact bare_env_argsort_ok.
  - intros k Hk. discriminate.
Defined.

(** ** The external boundary signal, continued *)

Lemma normalize_scale (n : nat) (c : R) (v : list R) :
  0 < c -> Np.normalize n (Np.scale c v) = Np.normalize n v.
Proof.
  intros Hc. unfold Np.normalize. rewrite sum_scale.
  destruct (Rlt_dec 0 (Np.sum v)) as [Hs | Hs].
  - destruct (Rlt_dec 0 (c * Np.sum v)) as [_ | Hn]; [| nra].
    unfold Np.div_scalar, Np.scale. rewrite map_map.
    apply map_ext. intros x. field. lra.
  - destruct (Rlt_dec 0 (c * Np.sum v)) as [Hp | _]; [nra | reflexivity].
Qed.

Lemma normalize_normalized (n : nat) (v : list R) :
  Np.sum v = 1 -> Np.normalize n v = v.
Proof.
  intros Hs. rewrite normalize_pos by lra. rewrite Hs.
  unfold Np.div_scalar. rewrite <- (map_id v) at 2.
  apply map_ext. intros x. field.
Qed.

Lemma scale_nil_iff (c : R) (v : list R) : Np.scale c v = [] <-> v = [].
Proof.
  destruct v; simpl; split; intros H; (reflexivity || discriminate).
Qed.

(** X20: only the ratios between the boundary probabilities matter.  When
    at least one probability per sentence is supplied, multiplying them
    all by a positive constant leaves the boundary signal unchanged. *)
Theorem cnn_prob_scores_scale_invariant (sentences : list string)
    (text : string) (probs : list R) (c : R) :
  0 < c -> (length sentences <= length probs)%nat ->
  _compute_cnn_prob_scores sentences text (Some (Np.scale c probs)) =
  _compute_cnn_prob_scores sentences text (Some probs).
Proof.
  intros Hc Hlen. destruct probs as [| p probs].
  - reflexivity.
  - rewrite !cnn_prob_scores_nonempty by (simpl; discriminate).
    rewrite <- (normalize_scale _ c (cnn_raw _ (p :: probs))) by assumption.
    f_equal. unfold cnn_raw. rewrite length_scale.
    destruct (Nat.eqb_spec (length (p :: probs)) (length sentences));
      [reflexivity |].
    destruct (Nat.ltb_spec (length sentences) (length (p :: probs)));
      [| lia].
    unfold Np.scale. apply firstn_map.
Qed.

Lemma cnn_prob_scores_scale_invariant_witness :
  _compute_cnn_prob_scores ["a"; "b"]%string "a b"
    (Some (Np.scale 10 [0.02; 0.08; 0.5])) =
  _compute_cnn_prob_scores ["a"; "b"]%string "a b" (Some [0.02; 0.08; 0.5]).
Proof.
  apply cnn_prob_scores_scale_invariant; [lra | simpl; lia].
Defined.

(** X21: the boundary signal is a fixed point of itself: fed back as
    [cnn_probs] for the same non-empty sentence list, its output comes
    back unchanged. *)
Theorem cnn_prob_scores_idempotent (sentences : list string) (text : string)
    (cnn_probs : option (list R)) :
  (0 < length sentences)%nat ->
  let scores := _compute_cnn_prob_scores sentences text cnn_probs in
  _compute_cnn_prob_scores sentences text (Some scores) = scores.
Proof.
  intros Hn scores.
  pose proof (length_cnn_prob_scores sentences text cnn_probs) as Hl.
  pose proof (sum_cnn_prob_scores sentences text cnn_probs Hn) as Hs.
  fold scores in Hl, Hs.
  rewrite cnn_prob_scores_nonempty
    by (intros He; rewrite He in Hl; simpl in Hl; lia).
  rewrite cnn_raw_exact by assumption.
  now apply normalize_normalized.
Qed.

Lemma cnn_prob_scores_idempotent_witness :
  let scores :=
    _compute_cnn_prob_scores ["a"; "b"; "c"]%string "a b c" (Some [0.2]) in
  _compute_cnn_prob_scores ["a"; "b"; "c"]%string "a b c" (Some scores) =
  scores.
Proof.
  apply (cnn_prob_scores_idempotent ["a"; "b"; "c"]%string "a b c"
           (Some [0.2])).
  simpl. lia.
Defined.

(** ** Fallbacks of the centrality and similarity signals *)

Lemma normalize_uniform (n : nat) :
  (0 < n)%nat -> Np.normalize n (Np.uniform n) = Np.uniform n.
Proof.
  intros Hn. apply normalize_normalized. now apply uniform_distribution.
Qed.

(** X22: the centrality signal is exactly the uniform distribution
    whenever networkx is missing, there is a single sentence, PageRank
    raises, or the PageRank scores do not sum to a positive number. *)
Theorem textrank_fallback_uniform (env : Backends) (sentences : list string) :
  (0 < length sentences)%nat ->
  let n := length sentences in
  let graph := similarity_edges (map (_tokenize_sentence env) sentences) in
  (HAS_NETWORKX env = false \/
   n = 1%nat \/
   nx_pagerank env n graph = None \/
   (exists pr, nx_pagerank env n graph = Some pr /\
      Np.sum (map (fun i => dict_get pr i 0) (seq 0 n)) <= 0)) ->
  _compute_textrank_scores env sentences = Np.uniform n.
Proof.
  intros Hn n graph Hcase. unfold _compute_textrank_scores. fold n graph.
  destruct (HAS_NETWORKX env) eqn:Enx; simpl; [| reflexivity].
  destruct (Nat.ltb_spec n 2) as [H2 | H2].
  - destruct (Nat.ltb_spec 0 n); [reflexivity | unfold n in *; lia].
  - destruct Hcase as [Hc | [Hc | [Hc | (pr & Hc & Hs)]]].
    + discriminate.
    + lia.
    + rewrite Hc. now apply normalize_uniform.
    + rewrite Hc. now apply normalize_nonpos.
Qed.

Lemma textrank_fallback_uniform_witness :
  _compute_textrank_scores bare_env ["a"; "b"; "c"]%string = Np.uniform 3.
Proof.
  apply (textrank_fallback_uniform bare_env ["a"; "b"; "c"]%string).
  - simpl. lia.
  - left. reflexivity.
Defined.

(** X23: the similarity signal degrades in two steps.  If embeddings are
    off, no model is stored, or encoding raises, the embedding path
    returns exactly the TF-IDF signal; and if scikit-learn is missing or
    raises, the TF-IDF signal is the uniform distribution. *)
Theorem similarity_fallback_chain (env : Backends)
    (self : SentenceSummarizer) (sentences : list string) :
  (0 < length sentences)%nat ->
  ((use_embeddings self = false \/
    embedding_model self = None \/
    (exists m, embedding_model self = Some m /\
       embedding_cosine env m sentences = None)) ->
   _compute_embedding_scores env self sentences =
   _compute_tfidf_scores env sentences) /\
  ((HAS_SKLEARN env = false \/ tfidf_cosine env sentences = None) ->
   _compute_tfidf_scores env sentences = Np.uniform (length sentences)).
Proof.
  intros Hn. split.
  - intros Hcase. unfold _compute_embedding_scores.
    destruct (use_embeddings self); [| reflexivity].
    destruct (embedding_model self) as [m |]; [| reflexivity].
    destruct Hcase as [Hc | [Hc | (m' & Hm & Hc)]]; try discriminate.
    injection Hm as <-. now rewrite Hc.
  - intros Hcase. unfold _compute_tfidf_scores.
    destruct (HAS_SKLEARN env); simpl; [| reflexivity].
    destruct (Nat.eqb_spec (length sentences) 0); [lia |].
    destruct Hcase as [Hc | Hc]; [discriminate | now rewrite Hc].
Qed.

Lemma similarity_fallback_chain_witness :
  _compute_embedding_scores bare_env default_summarizer ["a"; "b"]%string =
  _compute_tfidf_scores bare_env ["a"; "b"]%string /\
  _compute_tfidf_scores bare_env ["a"; "b"]%string = Np.uniform 2.
Proof.
  destruct (similarity_fallback_chain bare_env default_summarizer
              ["a"; "b"]%string ltac:(simpl; lia)) as [He Ht].
  split; [apply He | apply Ht]; left; reflexivity.
Defined.

(** ** The similarity graph *)

Lemma mem_string_In (t : string) (l : list string) :
  mem_string t l = true <-> In t l.
Proof.
  unfold mem_string. destruct (in_dec string_dec t l); split; intros H;
    (assumption || reflexivity || discriminate || contradiction).
Qed.

Lemma filter_length_bound {A : Type} (f : A -> bool) (l : list A) :
  (length (filter f l) <= length l)%nat.
Proof.
  induction l as [| a l IH]; simpl; [lia |].
  destruct (f a); simpl; lia.
Qed.

(** X24: the edges of the similarity graph.  Every edge joins two
    different sentence indices, the smaller first, both within range; its
    weight lies above 0.1 and is at most 1; and the two sentences share a
    token. *)
Theorem similarity_edges_sound (sentence_tokens : list (list string))
    (i j : nat) (w : R) :
  In (i, j, w) (similarity_edges sentence_tokens) ->
  (i < j < length sentence_tokens)%nat /\
  0.1 < w <= 1 /\
  exists t, In t (nth i sentence_tokens []) /\
            In t (nth j sentence_tokens []).
Proof.
  unfold similarity_edges. intros Hin.
  apply in_flat_map in Hin. destruct Hin as (i0 & Hi0 & Hin).
  apply in_flat_map in Hin. destruct Hin as (j0 & Hj0 & Hin).
  apply in_seq in Hi0, Hj0.
  set (ti := nodup string_dec (nth i0 sentence_tokens [])) in *.
  set (tj := nodup string_dec (nth j0 sentence_tokens [])) in *.
  set (inter := length (filter (fun t => mem_string t tj) ti)) in *.
  set (union := length (nodup string_dec (ti ++ tj))) in *.
  destruct ((length ti =? 0) || (length tj =? 0))%nat; [contradiction |].
  destruct (Rlt_dec 0.1 (if (0 <? union)%nat then INR inter / INR union
                          else 0)) as [Hw | _]; [| contradiction].
  destruct Hin as [Hin | []]. injection Hin as <- <- <-.
  destruct (Nat.ltb_spec 0 union) as [Hu | _]; [| lra].
  assert (Hle : (inter <= union)%nat).
  { unfold inter, union.
    etransitivity; [apply filter_length_bound |].
    apply NoDup_incl_length; [apply NoDup_nodup |].
    intros t Ht. apply nodup_In, in_or_app. now left. }
  assert (Hup : 0 < INR union) by (now apply lt_0_INR).
  split; [lia | split; [split; [exact Hw |] |]].
  - apply le_INR in Hle.
    apply (Rmult_le_reg_r (INR union)); [assumption |].
    unfold Rdiv. rewrite Rmult_assoc, Rinv_l by lra. lra.
  - destruct (filter (fun t => mem_string t tj) ti) as [| t rest] eqn:Ef.
    + exfalso. unfold inter in Hw. simpl in Hw.
      unfold Rdiv in Hw. rewrite Rmult_0_l in Hw. lra.
    + assert (Ht : In t (filter (fun t => mem_string t tj) ti))
        by (rewrite Ef; now left).
      apply filter_In in Ht. destruct Ht as [Hti Htj].
      apply mem_string_In in Htj.
      exists t. split; [apply (nodup_In string_dec), Hti |
                        apply (nodup_In string_dec), Htj].
Qed.

Lemma similarity_edges_example :
  In (0%nat, 1%nat, 1 / 3)
     (similarity_edges [["cat"; "sat"]; ["cat"; "ran"]]%string).
Proof.
  unfold similarity_edges. simpl.
  destruct (Rlt_dec 0.1 (1 / (1 + 1 + 1))) as [_ | Hn];
    [| exfalso; apply Hn; lra].
  simpl. left. repeat f_equal. lra.
Qed.

Lemma similarity_edges_sound_witness :
  (0 < 1 < 2)%nat /\
  0.1 < 1 / 3 <= 1 /\
  exists t, In t ["cat"; "sat"]%string /\ In t ["cat"; "ran"]%string.
Proof.
  exact (similarity_edges_sound [["cat"; "sat"]; ["cat"; "ran"]]%string
           0 1 (1 / 3) similarity_edges_example).
Defined.

(** ** Range of the weights *)

Lemma nth_nonneg (v : list R) (i : nat) : nonneg v -> 0 <= nth i v 0.
Proof.
  intros Hv. revert i. induction Hv as [| x v Hx _ IH]; intros [| i];
    simpl; try lra. apply IH.
Qed.

Lemma nth_le_sum (v : list R) (i : nat) : nonneg v -> nth i v 0 <= Np.sum v.
Proof.
  intros Hv. revert i. induction Hv as [| x v Hx Hv IH]; intros [| i];
    simpl; try lra.
  - pose proof (sum_nonneg v Hv). lra.
  - specialize (IH i). lra.
Qed.

Lemma distribution_range (n : nat) (v : list R) (i : nat) :
  distribution n v -> 0 <= nth i v 0 <= 1.
Proof.
  intros (_ & Hv & Hs). split; [now apply nth_nonneg |].
  rewrite <- Hs. now apply nth_le_sum.
Qed.

(** X25: with boundary probabilities that are not negative and libraries
    that return one non-negative score per sentence, every combined
    weight and every recorded signal score lies between 0 and 1. *)
Theorem weights_between_zero_and_one (env : Backends)
    (self : SentenceSummarizer) (sentences : list string) (text : string)
    (cnn_probs : option (list R)) :
  backends_ok env -> (0 < length sentences)%nat -> probs_nonneg cnn_probs ->
  let result :=
    compute_sentence_weights env self sentences text cnn_probs in
  (forall i, 0 <= nth i (fst result) 0 <= 1) /\
  (forall name v i, In (name, v) (snd result) -> 0 <= nth i v 0 <= 1).
Proof.
  intros Henv Hn Hp result.
  destruct (compute_sentence_weights_exact env Henv self sentences text
              cnn_probs Hn Hp) as [Hw Hc].
  split.
  - intros i. eapply distribution_range; exact Hw.
  - intros name v i Hin. eapply distribution_range. eapply Hc; exact Hin.
Qed.

Lemma weights_between_zero_and_one_witness :
  let result :=
    compute_sentence_weights bare_env default_summarizer
      ["a"; "b"; "c"]%string "a b c" (Some [0.9; 0.2]) in
  (forall i, 0 <= nth i (fst result) 0 <= 1) /\
  (forall name v i, In (name, v) (snd result) -> 0 <= nth i v 0 <= 1).
Proof.
  apply (weights_between_zero_and_one bare_env default_summarizer
           ["a"; "b"; "c"]%string "a b c" (Some [0.9; 0.2])).
  - exact bare_env_ok.
  - simpl. lia.
  - simpl. repeat constructor; lra.
Defined.

(** ** Signal vectors without an assumption on the embedding cosines *)

Section Libraries.

Variable env : Backends.
Hypothesis libs_ok : libraries_ok env.

Lemma textrank_distribution_libs (sentences : list string) :
  (0 < length sentences)%nat ->
  distribution (length sentences) (_compute_textrank_scores env sentences).
Proof.
  intros Hn. split; [| split].
  - unfold _compute_textrank_scores.
    destruct (HAS_NETWORKX env); simpl; [| apply length_uniform].
    destruct (Nat.ltb_spec (length sentences) 2).
    + destruct (Nat.ltb_spec 0 (length sentences));
        [apply length_uniform | lia].
    + apply normalize_length.
      destruct (nx_pagerank env _ _);
        [now rewrite length_map, length_seq | apply length_uniform].
  - unfold _compute_textrank_scores.
    destruct (HAS_NETWORKX env); simpl;
      [| now apply uniform_distribution].
    destruct (length sentences <? 2)%nat.
    + destruct (Nat.ltb_spec 0 (length sentences)); [| lia].
      now apply uniform_distribution.
    + destruct (nx_pagerank env _ _) as [pr |] eqn:Epr.
      * apply normalize_distribution; [assumption | |].
        -- now rewrite length_map, length_seq.
        -- apply Forall_map, Forall_forall. intros i _.
           eapply lib_pagerank_nonneg; eassumption.
      * apply normalize_distribution; [assumption | |];
          now apply uniform_distribution.
  - now apply sum_textrank_scores.
Qed.

Lemma tfidf_distribution_libs (sentences : list string) :
  (0 < length sentences)%nat ->
  distribution (length sentences) (_compute_tfidf_scores env sentences).
Proof.
  intros Hn. unfold _compute_tfidf_scores.
  destruct (HAS_SKLEARN env); simpl; [| now apply uniform_distribution].
  destruct (Nat.eqb_spec (length sentences) 0); [lia |].
  destruct (tfidf_cosine env sentences) as [v |] eqn:Ev.
  - apply normalize_distribution; [assumption | |].
    + eapply lib_tfidf_length; eassumption.
    + eapply lib_tfidf_nonneg; eassumption.
  - now apply uniform_distribution.
Qed.

Lemma similarity_distribution_libs (self : SentenceSummarizer)
    (sentences : list string) :
  (0 < length sentences)%nat ->
  embedding_cosines_nonneg env self sentences ->
  distribution (length sentences) (similarity_signal env self sentences).
Proof.
  intros Hn Hemb. unfold similarity_signal, _compute_embedding_scores.
  destruct (use_embeddings self) eqn:Eu;
    [| now apply tfidf_distribution_libs].
  destruct (embedding_model self) as [m |] eqn:Em;
    [| now apply tfidf_distribution_libs].
  destruct (embedding_cosine env m sentences) as [v |] eqn:Ev;
    [| now apply tfidf_distribution_libs].
  apply normalize_distribution; [assumption | |].
  - eapply lib_embedding_length; eassumption.
  - now apply (Hemb m v).
Qed.

Lemma term_effective (n : nat) (c : R) (v : list R) :
  distribution n v -> term_ok n (Np.scale c (effective n c v)).
Proof.
  intros Hv. unfold effective. destruct (Rlt_dec 0 c).
  - now apply term_scale_distribution.
  - apply term_scale_zeros.
Qed.

Lemma compute_sentence_weights_exact_libs (self : SentenceSummarizer)
    (sentences : list string) (text : string) (cnn_probs : option (list R)) :
  (0 < length sentences)%nat ->
  probs_nonneg cnn_probs ->
  embedding_cosines_nonneg env self sentences ->
  let result :=
    compute_sentence_weights env self sentences text cnn_probs in
  distribution (length sentences) (fst result) /\
  forall name v, In (name, v) (snd result) ->
    distribution (length sentences) v.
Proof.
  intros Hn Hp Hemb result.
  pose proof (cnn_distribution sentences text cnn_probs Hn Hp) as Hcnn.
  pose proof (textrank_distribution_libs sentences Hn) as Htr.
  pose proof (similarity_distribution_libs self sentences Hn Hemb) as Hsim.
  pose proof (position_distribution sentences Hn) as Hpos.
  split.
  - unfold result. rewrite compute_sentence_weights_eq by assumption.
    cbn [fst]. apply normalize_term; [assumption |].
    repeat apply term_add; now apply term_effective.
  - intros name v Hin.
    destruct (component_vectors _ _ _ _ _ _ _ Hn Hin)
      as [-> | [-> | [-> | ->]]]; assumption.
Qed.

End Libraries.

(** C3 (amended): for every non-empty sentence list, every [cnn_probs]
    argument that is absent or has no negative entry, and embedding
    cosines that, when the embedding path runs, have no negative entry,
    the combined weight vector and each signal vector recorded in the
    component map have one entry per sentence, no negative entry, and sum
    to 1 within 1e-6.  PageRank and TF-IDF are taken as the libraries
    guarantee them: one score per sentence, none negative. *)
Theorem compute_sentence_weights_vectors (env : Backends)
    (self : SentenceSummarizer) (sentences : list string)
    (original_text : string) (cnn_probs : option (list R)) :
  libraries_ok env ->
  (0 < length sentences)%nat ->
  probs_nonneg cnn_probs ->
  embedding_cosines_nonneg env self sentences ->
  let result :=
    compute_sentence_weights env self sentences original_text cnn_probs in
  weight_vector (length sentences) (fst result) /\
  forall name v, In (name, v) (snd result) ->
    weight_vector (length sentences) v.
Proof.
  intros Hlibs Hn Hp Hemb result.
  destruct (compute_sentence_weights_exact_libs env Hlibs self sentences
              original_text cnn_probs Hn Hp Hemb) as [Hc Hm].
  split.
  - now apply distribution_weight_vector.
  - intros name v Hin. apply distribution_weight_vector. eauto.
Qed.

Lemma opposed_env_libraries_ok : libraries_ok opposed_env.
Proof.
  constructor; simpl.
  - intros; discriminate.
  - intros s v Hv. injection Hv as <-. apply repeat_length.
  - intros s v Hv. injection Hv as <-. apply nonneg_repeat. lra.
  - intros _ s v Hv. injection Hv as <-. destruct s as [| x s]; simpl;
      [reflexivity |].
    rewrite length_app, repeat_length. simpl. lia.
Qed.

Lemma compute_sentence_weights_vectors_witness :
  let result :=
    compute_sentence_weights opposed_env default_summarizer
      ["a"; "b"]%string "a b" (Some [0.2; 0.8]) in
  weight_vector 2 (fst result) /\
  forall name v, In (name, v) (snd result) -> weight_vector 2 v.
Proof.
  apply (compute_sentence_weights_vectors opposed_env default_summarizer
           ["a"; "b"]%string "a b" (Some [0.2; 0.8])).
  - exact opposed_env_libraries_ok.
  - simpl. lia.
  - simpl. repeat constructor; lra.
  - intros m v Hu. discriminate.
Defined.

Lemma embedding_summarizer_constructed :
  __init__ opposed_env 0.25 0.35 0.30 0.10 true "all-MiniLM-L6-v2" =
  Ok (embedding_summarizer, []).
Proof.
  unfold __init__.
  destruct (Rlt_dec 1e-6 (Rabs (0.25 + 0.35 + 0.30 + 0.10 - 1)))
    as [Hlt | _]; [exfalso; abs_lra | reflexivity].
Qed.

Lemma embedding_component_recorded (env : Backends)
    (self : SentenceSummarizer) (sentences : list string) (text : string)
    (cnn_probs : option (list R)) :
  0 < tfidf_weight self -> use_embeddings self = true ->
  (0 < length sentences)%nat ->
  In ("embeddings"%string, _compute_embedding_scores env self sentences)
     (snd (compute_sentence_weights env self sentences text cnn_probs)).
Proof.
  intros Hf Hu Hn. rewrite compute_sentence_weights_eq by assumption.
  cbn [snd]. unfold recorded, similarity_key, similarity_signal.
  rewrite Hu. destruct (Rlt_dec 0 (tfidf_weight self)); [| contradiction].
  apply in_or_app. right. apply in_or_app. right.
  apply in_or_app. left. now left.
Qed.

(** C3 (as stated, refuted), on two inputs.  Boundary probabilities
    [-1; 3] over two sentences are recorded as the signal vector
    [-1/2; 3/2]; and with [cnn_probs] absent, embedding cosines
    [1; 1; -1] over three sentences are recorded as the signal vector
    [1; 1; -1].  Each has a negative entry. *)
Lemma negative_scores_recorded :
  (exists v,
     In ("cnn_prob"%string, v)
        (snd (compute_sentence_weights bare_env default_summarizer
                ["a"; "b"]%string "a b" (Some [-1; 3]))) /\
     v = [-1 / 2; 3 / 2] /\ ~ nonneg v) /\
  (exists v,
     In ("embeddings"%string, v)
        (snd (compute_sentence_weights opposed_env embedding_summarizer
                ["a"; "b"; "c"]%string "a b c" None)) /\
     v = [1; 1; -1] /\ ~ nonneg v).
Proof.
  split.
  - exists (_compute_cnn_prob_scores ["a"; "b"]%string "a b" (Some [-1; 3])).
    split.
    + apply cnn_component_recorded; simpl; [lra | lia].
    + assert (Hv : _compute_cnn_prob_scores ["a"; "b"]%string "a b"
                     (Some [-1; 3]) = [-1 / 2; 3 / 2]).
      { rewrite cnn_prob_scores_nonempty by discriminate.
        rewrite normalize_pos by (unfold cnn_raw; simpl; lra).
        unfold cnn_raw. simpl. repeat f_equal; lra. }
      split; [exact Hv |]. rewrite Hv. intros Hn.
      inversion Hn as [| x l Hx _]. lra.
  - exists (_compute_embedding_scores opposed_env embedding_summarizer
              ["a"; "b"; "c"]%string).
    split.
    + apply embedding_component_recorded; simpl; [lra | reflexivity | lia].
    + assert (Hv : _compute_embedding_scores opposed_env
                     embedding_summarizer ["a"; "b"; "c"]%string =
                   [1; 1; -1]).
      { unfold _compute_embedding_scores. simpl.
        rewrite normalize_pos by (simpl; lra).
        simpl. repeat f_equal; lra. }
      split; [exact Hv |]. rewrite Hv. intros Hn.
      inversion Hn as [| x l _ Hl]. inversion Hl as [| y l' _ Hl'].
      inversion Hl' as [| z l'' Hz _]. lra.
Qed.

(** ** The position signal in binary64 *)






(** With the reference exponential and sum, that common score is 0. *)
Lemma reference_tail_score_zero :
  nth (Z.to_nat 7470)
    (F64._compute_position_scores F64.reference_numpy F64.long_document)
    0%float = 0%float /\
  nth (Z.to_nat 7471)
    (F64._compute_position_scores F64.reference_numpy F64.long_document)
    0%float = 0%float.
Proof.
  split; vm_compute; reflexivity.
Qed.
